(** * nerr: chainable annotated errors

    A shallow embedding of the Go package [nerr] (the later of the two
    versions of the module, the one with [NewLevel], [TopOp] and the
    collection properties) and the properties of its construction,
    rendering and chain traversal functions.  The functions of the earlier
    version that differ are in the module [Earlier].

    Modelling decisions.
    - A Go [error] interface value is [nil_error], a pointer to a node
      ([ptr_Error]) or any other error ([foreign]), of which only the text
      returned by its [Error()] method is kept.  A node is identified with
      its contents: two allocations with equal fields are the same value
      here, whereas Go's [==] compares addresses.  A nil [*Error] stored in
      a non-nil interface is not represented.
    - Go's [int] is [Z]; the package does no arithmetic on codes.
    - [panic] is the [Panic] outcome of [result].
    - [runtime.Caller], [eno.Name] and the [%v] form of an [eno.ErrNo] come
      from outside the package and are parameters. *)

From Stdlib Require Import ZArith List String Ascii Bool Lia DecimalString.
Import ListNotations.
Local Open Scope string_scope.
Local Open Scope Z_scope.

(** ** Data model *)

(** [type Error struct { Op string; Code int; Place string; Err error }]
    together with the values of the interface type [error]. *)
Inductive error : Type :=
| nil_error
| ptr_Error (v : Error)
| foreign (text : string)
with Error : Type :=
| mkError (Op : string) (Code : Z) (Place : string) (Err : error).

Definition Op (e : Error) : string := let 'mkError o _ _ _ := e in o.
Definition Code (e : Error) : Z := let 'mkError _ c _ _ := e in c.
Definition Place (e : Error) : string := let 'mkError _ _ p _ := e in p.
Definition Err (e : Error) : error := let 'mkError _ _ _ x := e in x.

(** [&Error{}] *)
Definition zero_Error : Error := mkError "" 0 "" nil_error.

Definition set_Op (e : Error) (o : string) : Error :=
  mkError o (Code e) (Place e) (Err e).
Definition set_Code (e : Error) (c : Z) : Error :=
  mkError (Op e) c (Place e) (Err e).
Definition set_Place (e : Error) (p : string) : Error :=
  mkError (Op e) (Code e) p (Err e).
Definition set_Err (e : Error) (x : error) : Error :=
  mkError (Op e) (Code e) (Place e) x.

(** [x == nil] on an interface value. *)
Definition is_nil (e : error) : bool :=
  match e with nil_error => true | _ => false end.

(** [len(s) > 0] *)
Definition nonempty (s : string) : bool :=
  match s with EmptyString => false | String _ _ => true end.

(** [strconv.Itoa] and the [%d] verb. *)
Definition itoa (z : Z) : string := NilZero.string_of_int (Z.to_int z).

(** [strings.Join] *)
Definition Join (l : list string) (sep : string) : string := String.concat sep l.

(** ** Chain traversal *)

Fixpoint TopCode (e : error) : Z :=
  match e with
  | nil_error => 0
  | ptr_Error v => if Code v =? 0 then TopCode (Err v) else Code v
  | foreign _ => 0
  end.

Fixpoint Ops (e : error) : list string :=
  match e with
  | nil_error => []
  | ptr_Error v => Op v :: (if is_nil (Err v) then [] else Ops (Err v))
  | foreign text => [text]
  end.

Definition TopOp (e : error) : string :=
  let ops := Ops e in
  if (0 <? Z.of_nat (List.length ops)) then last ops "" else itoa (TopCode e).

(** The entry of one node in [Trace]: its place, then its own operation
    and code when it has them, joined with a semicolon. *)
Definition trace_info (v : Error) : string :=
  let info := [Place v] in
  let info := if nonempty (Op v) then app info ["op: " ++ Op v] else info in
  let info := if Code v =? 0 then info else app info ["code: " ++ itoa (Code v)] in
  Join info "; ".

Fixpoint Trace (e : error) : list string :=
  match e with
  | nil_error => []
  | ptr_Error v =>
      let res := [trace_info v] in
      if is_nil (Err v) then res else app res (Trace (Err v))
  | foreign _ => []
  end.

Fixpoint IsCode (err : error) (code : Z) : bool :=
  match err with
  | nil_error => false
  | ptr_Error e =>
      if TopCode (ptr_Error e) =? code then true
      else if negb (is_nil (Err e)) then IsCode (Err e) code
      else false
  | foreign text =>
      if TopCode (foreign text) =? code then true else false
  end.

(** ** Rendering *)

(** [error_text e] is what [e.Error()] returns and what the [%v] verb prints
    for [e]; [%v] prints a nil interface as [<nil>].  [Error_Error] is the
    [Error] method of [*Error]. *)
Fixpoint error_text (e : error) : string :=
  match e with
  | nil_error => "<nil>"
  | ptr_Error v => Error_Error v
  | foreign text => text
  end
with Error_Error (e : Error) : string :=
  match e with
  | mkError op own place cause =>
      let res := [] in
      let res := if nonempty op then app res ["op: " ++ op] else res in
      let code := TopCode (ptr_Error (mkError op own place cause)) in
      let res := if 0 <? code then app res ["code: " ++ itoa code] else res in
      let trace := Trace (ptr_Error (mkError op own place cause)) in
      let res :=
        if (0 <? Z.of_nat (List.length trace))
        then app res ["source: " ++ last trace ""] else res in
      if (Z.of_nat (List.length res) =? 0) && is_nil cause then "undefined"
      else
        let s := Join res ", " in
        if is_nil cause then s
        else if nonempty s then s ++ " => " ++ error_text cause
             else error_text cause
  end.

(** ** Unwrapping and matching *)

(** The [Unwrap] method of [*Error]. *)
Definition Error_Unwrap (e : Error) : error :=
  if is_nil (Err e) then ptr_Error e else Err e.

(** [Unwrap], that is [errors.Unwrap]: the result of the [Unwrap] method
    when the value has one, nil otherwise.  Foreign errors are terminal. *)
Definition Unwrap (err : error) : error :=
  match err with
  | ptr_Error e => Error_Unwrap e
  | _ => nil_error
  end.

(** Equality of two error values by their contents.  Go's [==] compares
    two [*Error] and two results of [errors.New] by address: values that
    differ here differ for Go as well, but two allocations with the same
    contents are equal here and different for Go. *)
Fixpoint error_eqb (a b : error) : bool :=
  match a, b with
  | nil_error, nil_error => true
  | ptr_Error v, ptr_Error w => Error_eqb v w
  | foreign s, foreign t => String.eqb s t
  | _, _ => false
  end
with Error_eqb (v w : Error) : bool :=
  match v, w with
  | mkError o c p x, mkError o' c' p' x' =>
      String.eqb o o' && (c =? c') && String.eqb p p' && error_eqb x x'
  end.

(** The loop of [errors.Is]:
    [for { if err == target { return true }; ...; err = x.Unwrap();
           if err == nil { return false } }]
    with [default: return false] for a value without an [Unwrap] method.
    [*Error] has no [Is] method.  The loop has no bound in Go; here each
    iteration uses one unit of fuel and [None] means the fuel ran out.
    Equality is [error_eqb] and a foreign error is taken to have neither an
    [Is] nor an [Unwrap] method; [errors_is_with] below makes neither
    assumption. *)
Fixpoint errors_is (fuel : nat) (err target : error) : option bool :=
  match fuel with
  | O => None
  | S fuel' =>
      if error_eqb err target then Some true
      else match err with
           | ptr_Error e =>
               let err' := Error_Unwrap e in
               if is_nil err' then Some false else errors_is fuel' err' target
           | _ => Some false
           end
  end.

(** [Is], that is [errors.Is], which answers [err == target] at once when
    either is nil. *)
Definition Is (fuel : nat) (err target : error) : option bool :=
  if is_nil err || is_nil target then Some (error_eqb err target)
  else errors_is fuel err target.

(** The same loop without the two assumptions.  [same err target] is the
    test [isComparable && err == target] of the loop, Go's own equality of
    interface values.  [foreign_is text target] is what the loop does from
    a foreign error on that failed this test: its [Is] method, its [Unwrap]
    method and the errors that one leads to; [None] when the loop does not
    return. *)
Section Matching.

Variable same : error -> error -> bool.
Variable foreign_is : string -> error -> option bool.

Fixpoint errors_is_with (fuel : nat) (err target : error) : option bool :=
  match fuel with
  | O => None
  | S fuel' =>
      if same err target then Some true
      else match err with
           | ptr_Error e =>
               let err' := Error_Unwrap e in
               if is_nil err' then Some false
               else errors_is_with fuel' err' target
           | foreign text => foreign_is text target
           | nil_error => Some false
           end
  end.

Definition Is_with (fuel : nat) (err target : error) : option bool :=
  if is_nil err || is_nil target then Some (is_nil err && is_nil target)
  else errors_is_with fuel err target.

End Matching.

(** ** The chain of an error *)

(** The nodes of a chain, outermost first, up to the first value that is
    not a node. *)
Fixpoint nodes (e : error) : list Error :=
  match e with
  | ptr_Error v => v :: nodes (Err v)
  | _ => []
  end.

(** The cause reached after [d] steps down the [Err] links; nil when the
    chain ends before. *)
Fixpoint cause_at (d : nat) (e : error) : error :=
  match d with
  | O => e
  | S d' =>
      match e with
      | ptr_Error v => cause_at d' (Err v)
      | _ => nil_error
      end
  end.

(** The top-level code as the specification words it: the cause is asked
    first and the node's own code is used only when the cause gave zero. *)
Fixpoint TopCode_deepest (e : error) : Z :=
  match e with
  | nil_error => 0
  | ptr_Error v =>
      let c := TopCode_deepest (Err v) in
      if c =? 0 then Code v else c
  | foreign _ => 0
  end.

(** The code membership test as the specification words it: the top-level
    code is the target, or the immediate cause is itself a node and the
    test on it finds the target. *)
Definition has_code_via_node_cause (err : error) (code : Z) : Prop :=
  TopCode err = code \/
  exists e cause, err = ptr_Error e /\ Err e = ptr_Error cause /\
                  IsCode (ptr_Error cause) code = true.

(** The value at which the nodes of a chain end: nil or a foreign error. *)
Fixpoint terminal (e : error) : error :=
  match e with
  | ptr_Error v => terminal (Err v)
  | _ => e
  end.

(** What a foreign value at the end of a chain adds to [Ops]. *)
Definition terminal_text (e : error) : list string :=
  match terminal e with
  | foreign text => [text]
  | _ => []
  end.

(** The innermost node of the chain that starts at the node [v]. *)
Definition innermost (v : Error) : Error := last (nodes (Err v)) v.

(** The parts of a rendering before the cause. *)
Definition render_parts (e : Error) : list string :=
  app (if nonempty (Op e) then ["op: " ++ Op e] else [])
      (app (if 0 <? TopCode (ptr_Error e)
            then ["code: " ++ itoa (TopCode (ptr_Error e))] else [])
           ["source: " ++ last (Trace (ptr_Error e)) ""]).

(** ** Construction *)

(** The outcome of a call that may panic. *)
Inductive result (A : Type) : Type :=
| Ok (a : A)
| Panic (msg : string).
Arguments Ok {A} a.
Arguments Panic {A} msg.

#[local] Set Warnings "-register-all".

(** The values a caller passes in [args ...any]: the dynamic types the type
    switch of [prepareProperty] tells apart.  [any_error nil_error] is the
    nil interface, like [any_nil].  [any_other] stands for a value of any
    other type, with what [%T] and [%v] print for it. *)
Inductive any : Type :=
| any_nil
| any_string (v : string)
| any_ErrNo (v : Z)
| any_int (v : Z)
| any_int8 (v : Z)
| any_int32 (v : Z)
| any_errors (v : list error)
| any_slice (v : list any)
| any_error (v : error)
| any_other (type_name text : string).

(** [arg == nil] *)
Definition any_is_nil (arg : any) : bool :=
  match arg with
  | any_nil => true
  | any_error v => is_nil v
  | _ => false
  end.

(** [errors.New] *)
Definition errors_New (text : string) : error := foreign text.

(** A frame reported by [runtime.Caller] and [runtime.FuncForPC]. *)
Record Frame : Type := mkFrame { fn_name : string; file : string; line : Z }.

(** An environment to evaluate the constructors in. *)

Definition example_Caller (skip : Z) : option Frame :=
  Some (mkFrame "main.run" "main.go" (40 + skip)).
Definition example_Name (v : Z) : string := "E" ++ itoa v.
Definition example_String (v : Z) : string := itoa v.

(** ** The earlier version of the package

    The file [nerr.go] holds the version of the package before [NewLevel]
    and the collection properties.  [Ops], [TopCode] and [IsCode] are the
    same in both versions; the functions that differ are modelled here. *)
Module Earlier.

Fixpoint Trace (e : error) : list string :=
  match e with
  | nil_error => []
  | ptr_Error v => Place v :: (if is_nil (Err v) then [] else Trace (Err v))
  | foreign _ => []
  end.

(** The [Error] method, which has no source part, and the text of an
    error of any kind. *)
Fixpoint error_text (e : error) : string :=
  match e with
  | nil_error => "<nil>"
  | ptr_Error v => Error_Error v
  | foreign text => text
  end
with Error_Error (e : Error) : string :=
  match e with
  | mkError op own place cause =>
      let res := [] in
      let res := if nonempty op then app res ["op: " ++ op] else res in
      let code := TopCode (ptr_Error (mkError op own place cause)) in
      let res := if 0 <? code then app res ["code: " ++ itoa code] else res in
      if (Z.of_nat (List.length res) =? 0) && is_nil cause then "undefined"
      else
        let s := Join res ", " in
        if is_nil cause then s
        else if nonempty s then s ++ " => " ++ error_text cause
             else error_text cause
  end.

(** The [Unwrap] method: [return e.Err]. *)
Definition Error_Unwrap (e : Error) : error := Err e.

Definition Unwrap (err : error) : error :=
  match err with
  | ptr_Error e => Error_Unwrap e
  | _ => nil_error
  end.

(** The loop of [errors.Is] over this [Unwrap] method, with Go's equality
    [same] and the behaviour [foreign_is] of the loop from a foreign error
    on as in [errors_is_with]. *)
Section Matching.

Variable same : error -> error -> bool.
Variable foreign_is : string -> error -> option bool.

Fixpoint errors_is (fuel : nat) (err target : error) : option bool :=
  match fuel with
  | O => None
  | S fuel' =>
      if same err target then Some true
      else match err with
           | ptr_Error e =>
               let err' := Error_Unwrap e in
               if is_nil err' then Some false else errors_is fuel' err' target
           | foreign text => foreign_is text target
           | nil_error => Some false
           end
  end.

Definition Is (fuel : nat) (err target : error) : option bool :=
  if is_nil err || is_nil target then Some (is_nil err && is_nil target)
  else errors_is fuel err target.

End Matching.

Section Construction.

(** [runtime.Caller(skip)] as seen from inside [New]. *)
Variable runtime_Caller : Z -> option Frame.
(** [eno.Name] *)
Variable eno_Name : Z -> string.

(** The type switch in the loop of [New], on the node built so far.  A nil
    property matches no case and ends in the default, where [%T] prints
    [<nil>] for it. *)
Definition property (e : Error) (arg : any) : result Error :=
  match arg with
  | any_string v =>
      if nonempty (Op e) then
        if nonempty v then Ok (set_Op e (Op e ++ ", " ++ v)) else Ok e
      else Ok (set_Op e v)
  | any_ErrNo v =>
      let e := set_Code e v in
      if nonempty (Op e) then Ok e else Ok (set_Op e (eno_Name v))
  | any_int v =>
      if negb (Code e =? 0) then Panic "code duplication"
      else Ok (set_Code e v)
  | any_int8 _ =>
      if negb (Code e =? 0) then Panic "code duplication"
      else Panic "interface conversion: interface {} is int8, not int"
  | any_int32 _ =>
      if negb (Code e =? 0) then Panic "code duplication"
      else Panic "interface conversion: interface {} is int32, not int"
  | any_error v =>
      if is_nil v then Panic "invalid argument type: <nil>"
      else if negb (is_nil (Err e)) then Panic "error duplication"
      else Ok (set_Err e v)
  | any_nil => Panic "invalid argument type: <nil>"
  | any_errors _ => Panic "invalid argument type: []error"
  | any_slice _ => Panic "invalid argument type: []interface {}"
  | any_other type_name _ => Panic ("invalid argument type: " ++ type_name)
  end.

Fixpoint properties (e : Error) (args : list any) : result Error :=
  match args with
  | [] => Ok e
  | arg :: rest =>
      match property e arg with
      | Panic msg => Panic msg
      | Ok e' => properties e' rest
      end
  end.

Definition new_Error : Error :=
  match runtime_Caller 1 with
  | Some f =>
      set_Place zero_Error
        (fn_name f ++ " (" ++ file f ++ ":" ++ itoa (line f) ++ ")")
  | None => zero_Error
  end.

Definition New (args : list any) : result error :=
  let construct :=
    match properties new_Error args with
    | Panic msg => Panic msg
    | Ok e => Ok (ptr_Error e)
    end in
  match args with
  | [arg] => if any_is_nil arg then Ok nil_error else construct
  | _ => construct
  end.

End Construction.

End Earlier.

Section Construction.

(** [runtime.Caller(skip)] as seen from inside [NewLevel]. *)
Variable runtime_Caller : Z -> option Frame.
(** [eno.Name] *)
Variable eno_Name : Z -> string.
(** What [%v] prints for an [eno.ErrNo]. *)
Variable eno_String : Z -> string.

(** [fmt.Sprintf("%v", arg)] *)
Fixpoint fmt_v (arg : any) : string :=
  match arg with
  | any_nil => "<nil>"
  | any_string v => v
  | any_ErrNo v => eno_String v
  | any_int v => itoa v
  | any_int8 v => itoa v
  | any_int32 v => itoa v
  | any_errors v => "[" ++ Join (map error_text v) " " ++ "]"
  | any_slice v => "[" ++ Join (map fmt_v v) " " ++ "]"
  | any_error v => error_text v
  | any_other _ text => text
  end.

(** The texts gathered by the loop of the [[]error] case. *)
Definition error_texts (v : list error) : list string :=
  flat_map (fun x => if is_nil x then [] else [error_text x]) v.

(** The texts gathered by the loop of the [[]any] case. *)
Definition any_texts (v : list any) : list string :=
  flat_map (fun x =>
              if any_is_nil x then []
              else let text := fmt_v x in
                   if nonempty text then [fmt_v x] else []) v.

(** The end of both collection cases: the joined texts become the cause. *)
Definition set_joined (e : Error) (errs : list string) : result (Error * bool) :=
  if (0 <? Z.of_nat (List.length errs)) then
    if negb (is_nil (Err e)) then Panic "error duplication"
    else Ok (set_Err e (errors_New (Join errs ", ")), true)
  else Ok (e, false).

(** [prepareProperty] on a value of static type [error]: the nil test and
    the [case error] of the type switch. *)
Definition prepareError (e : Error) (v : error) : result (Error * bool) :=
  if is_nil v then Ok (e, false)
  else if negb (is_nil (Err e)) then Panic "error duplication"
  else Ok (set_Err e v, true).

(** [prepareProperty] returns the node as the call leaves it and the
    boolean of the source. *)
Fixpoint prepareProperty (e : Error) (arg : any) : result (Error * bool) :=
  match arg with
  | any_nil => Ok (e, false)
  | any_string v =>
      if nonempty (Op e) then
        if nonempty v && negb (String.eqb (Op e) v)
        then Ok (set_Op e (Op e ++ ", " ++ v), true)
        else Ok (e, true)
      else Ok (set_Op e v, true)
  | any_ErrNo v =>
      let e := set_Code e v in
      if nonempty (Op e) then Ok (e, true)
      else Ok (set_Op e (eno_Name v), true)
  | any_int v =>
      if negb (Code e =? 0) then Panic "code duplication"
      else Ok (set_Code e v, true)
  | any_int8 _ =>
      if negb (Code e =? 0) then Panic "code duplication"
      else Panic "interface conversion: interface {} is int8, not int"
  | any_int32 _ =>
      if negb (Code e =? 0) then Panic "code duplication"
      else Panic "interface conversion: interface {} is int32, not int"
  | any_errors v =>
      match v with
      | [x] => prepareError e x
      | _ => set_joined e (error_texts v)
      end
  | any_slice v =>
      match v with
      | [x] => prepareProperty e x
      | _ => set_joined e (any_texts v)
      end
  | any_error v => prepareError e v
  | any_other type_name _ => Panic ("invalid argument type: " ++ type_name)
  end.

(** The loop [for _, arg := range args] of [NewLevel]: [None] when a
    property made [prepareProperty] return false. *)
Fixpoint prepareProperties (e : Error) (args : list any) : result (option Error) :=
  match args with
  | [] => Ok (Some e)
  | arg :: rest =>
      match prepareProperty e arg with
      | Panic msg => Panic msg
      | Ok (_, false) => Ok None
      | Ok (e', true) => prepareProperties e' rest
      end
  end.

(** The node [NewLevel] starts from: [&Error{}] with its place. *)
Definition new_Error (codeLevel : Z) : Error :=
  match runtime_Caller codeLevel with
  | Some f =>
      set_Place zero_Error
        (fn_name f ++ " (" ++ file f ++ ":" ++ itoa (line f) ++ ")")
  | None => zero_Error
  end.

(** The second test of the source on a single argument, a value of type
    [error] that is nil, cannot succeed after the first; [any_is_nil]
    covers both. *)
Definition NewLevel (codeLevel : Z) (args : list any) : result error :=
  let construct :=
    match prepareProperties (new_Error codeLevel) args with
    | Panic msg => Panic msg
    | Ok None => Ok nil_error
    | Ok (Some e) => Ok (ptr_Error e)
    end in
  match args with
  | [arg] => if any_is_nil arg then Ok nil_error else construct
  | _ => construct
  end.

(** [New] hands its slice of arguments to [NewLevel] as one argument
    ([NewLevel(2, args)], not [NewLevel(2, args...)]). *)
Definition New (args : list any) : result error :=
  NewLevel 2 [any_slice args].

(** [NewFmt], given what [fmt.Sprintf(format, args...)] returned. *)
Definition NewFmt (formatted : string) : result error :=
  New [any_string formatted].

(** ** Properties of the construction *)

Lemma is_nil_true (e : error) : is_nil e = true <-> e = nil_error.
Proof. destruct e; simpl; split; congruence. Qed.

Lemma is_nil_false (e : error) : is_nil e = false <-> e <> nil_error.
Proof. destruct e; simpl; split; congruence. Qed.

Lemma itoa_nonempty (z : Z) : nonempty (itoa z) = true.
Proof.
  unfold itoa. destruct (Z.to_int z) as [d | d]; [destruct d | ]; reflexivity.
Qed.

Lemma set_Op_same (e : Error) : set_Op e (Op e) = e.
Proof. now destruct e. Qed.

Lemma new_Error_fresh (codeLevel : Z) :
  Op (new_Error codeLevel) = "" /\ Code (new_Error codeLevel) = 0 /\
  Err (new_Error codeLevel) = nil_error.
Proof.
  unfold new_Error. destruct (runtime_Caller codeLevel); repeat split.
Qed.

(** [New] comes down to one call of [prepareProperty] on the whole slice of
    arguments. *)
Lemma New_unfold (args : list any) :
  New args = match prepareProperty (new_Error 2) (any_slice args) with
             | Panic msg => Panic msg
             | Ok (_, false) => Ok nil_error
             | Ok (e, true) => Ok (ptr_Error e)
             end.
Proof.
  unfold New, NewLevel.
  cbn [any_is_nil prepareProperties].
  destruct (prepareProperty (new_Error 2) (any_slice args)) as [[e [ | ]] | msg];
    reflexivity.
Qed.

(** *** What [prepareProperty] does with one property *)

(** The label rule: an empty or equal label leaves the operation as it is,
    another label is added after a comma, and the first label is taken as
    it comes. *)
Lemma prepareProperty_label (e : Error) (v : string) :
  prepareProperty e (any_string v)
  = Ok (set_Op e (if nonempty (Op e)
                  then if nonempty v && negb (String.eqb (Op e) v)
                       then Op e ++ ", " ++ v else Op e
                  else v), true).
Proof.
  cbn [prepareProperty].
  destruct (nonempty (Op e)); [ | reflexivity].
  destruct (nonempty v && negb (String.eqb (Op e) v)); [reflexivity | ].
  now rewrite set_Op_same.
Qed.

(** A plain integer given to a node that already has a code panics. *)
Lemma prepareProperty_code_duplication (e : Error) (v : Z) :
  Code e <> 0 -> prepareProperty e (any_int v) = Panic "code duplication".
Proof.
  intros H. cbn [prepareProperty].
  apply Z.eqb_neq in H. now rewrite H.
Qed.

(** A domain error code overwrites the code of the node without a test. *)
Lemma prepareProperty_ErrNo_overwrites (e : Error) (v : Z) :
  exists e', prepareProperty e (any_ErrNo v) = Ok (e', true) /\ Code e' = v.
Proof.
  cbn [prepareProperty].
  destruct (nonempty (Op (set_Code e v))); eexists; split; try reflexivity;
    now destruct e.
Qed.

(** A cause given to a node that already has one panics. *)
Lemma prepareProperty_error_duplication (e : Error) (v : error) :
  Err e <> nil_error -> v <> nil_error ->
  prepareProperty e (any_error v) = Panic "error duplication".
Proof.
  intros He Hv. cbn [prepareProperty]. unfold prepareError.
  apply is_nil_false in He, Hv. now rewrite He, Hv.
Qed.

(** *** [NewLevel] with the properties spread out *)

Lemma NewLevel_code_duplication (codeLevel a b : Z) :
  a <> 0 -> NewLevel codeLevel [any_int a; any_int b] = Panic "code duplication".
Proof.
  intros Ha. unfold NewLevel.
  cbn [prepareProperties prepareProperty].
  destruct (new_Error_fresh codeLevel) as (_ & Hc & _). rewrite Hc.
  cbn [Z.eqb negb]. apply Z.eqb_neq in Ha.
  replace (Code (set_Code (new_Error codeLevel) a)) with a
    by now destruct (new_Error codeLevel).
  now rewrite Ha.
Qed.

Lemma NewLevel_error_duplication (codeLevel : Z) (e1 e2 : error) :
  e1 <> nil_error -> e2 <> nil_error ->
  NewLevel codeLevel [any_error e1; any_error e2] = Panic "error duplication".
Proof.
  intros H1 H2. unfold NewLevel.
  cbn [prepareProperties prepareProperty]. unfold prepareError.
  destruct (new_Error_fresh codeLevel) as (_ & _ & Hx). rewrite Hx.
  apply is_nil_false in H1, H2. rewrite H1, H2. cbn [is_nil negb].
  replace (Err (set_Err (new_Error codeLevel) e1)) with e1
    by now destruct (new_Error codeLevel).
  now rewrite H1.
Qed.

Lemma NewLevel_labels (codeLevel : Z) :
  NewLevel codeLevel [any_string "A"; any_string "A"]
  = Ok (ptr_Error (set_Op (new_Error codeLevel) "A")) /\
  NewLevel codeLevel [any_string "A"; any_string "B"]
  = Ok (ptr_Error (set_Op (new_Error codeLevel) "A, B")).
Proof.
  unfold NewLevel, new_Error.
  destruct (runtime_Caller codeLevel); split; reflexivity.
Qed.

(** *** [New], which passes the slice on as one property *)

(** On a fresh node no property raises one of the two duplication panics:
    a slice of one element is looked into with the same fresh node, and a
    longer slice is turned into text. *)
Lemma prepareProperty_fresh (arg : any) :
  forall e msg, Code e = 0 -> Err e = nil_error ->
    prepareProperty e arg = Panic msg ->
    msg <> "code duplication" /\ msg <> "error duplication".
Proof.
  revert arg. fix IH 1.
  intros arg e msg Hc Hx.
  destruct arg as [ | v | v | v | v | v | v | v | v | ty text ];
    cbn [prepareProperty]; unfold prepareError, set_joined;
    rewrite ?Hc, ?Hx; cbn [Z.eqb negb is_nil].
  - discriminate.
  - destruct (nonempty (Op e)); [ | discriminate].
    destruct (nonempty v && negb (String.eqb (Op e) v)); discriminate.
  - destruct (nonempty (Op (set_Code e v))); discriminate.
  - discriminate.
  - intros [= <-]. split; discriminate.
  - intros [= <-]. split; discriminate.
  - destruct v as [ | x [ | y l ] ].
    + discriminate.
    + destruct (is_nil x); discriminate.
    + destruct (0 <? _); discriminate.
  - destruct v as [ | x [ | y l ] ].
    + discriminate.
    + apply IH; assumption.
    + destruct (0 <? _); discriminate.
  - destruct (is_nil v); discriminate.
  - intros [= <-]. split; discriminate.
Qed.

Lemma New_no_duplication_panic (args : list any) :
  New args <> Panic "code duplication" /\ New args <> Panic "error duplication".
Proof.
  rewrite New_unfold.
  destruct (new_Error_fresh 2) as (_ & Hc & Hx).
  destruct (prepareProperty (new_Error 2) (any_slice args))
    as [[e [ | ]] | msg] eqn:E; try (split; discriminate).
  destruct (prepareProperty_fresh _ _ _ Hc Hx E) as [H1 H2].
  split; intros [= ->]; [now apply H1 | now apply H2].
Qed.

Lemma set_joined_fresh (e : Error) (errs : list string) :
  Err e = nil_error ->
  set_joined e errs
  = match errs with
    | [] => Ok (e, false)
    | _ :: _ => Ok (set_Err e (errors_New (Join errs ", ")), true)
    end.
Proof.
  intros Hx. unfold set_joined. rewrite Hx. now destruct errs.
Qed.

Lemma error_texts_filter (v : list error) :
  error_texts v = map error_text (filter (fun x => negb (is_nil x)) v).
Proof.
  unfold error_texts. induction v as [ | x v IH ]; [reflexivity | ].
  cbn [flat_map filter]. destruct (is_nil x); cbn [negb map app]; now rewrite IH.
Qed.

(** X12.  With no property or with several, [New] sets neither operation
    nor code and never panics, whatever the kinds of the properties: what
    is printed for the properties that are not nil becomes the text of the
    cause, and the absent value is returned when nothing is printed. *)
Lemma New_several_properties (args : list any) :
  List.length args <> 1%nat ->
  New args
  = match any_texts args with
    | [] => Ok nil_error
    | errs => Ok (ptr_Error (set_Err (new_Error 2) (errors_New (Join errs ", "))))
    end.
Proof.
  intros Hlen. rewrite New_unfold. cbn [prepareProperty].
  destruct (new_Error_fresh 2) as (_ & _ & Hx).
  destruct args as [ | x [ | y args ] ]; [ | now elim Hlen | ];
    rewrite set_joined_fresh by exact Hx;
    destruct (any_texts _); reflexivity.
Qed.

(** C2, at the failing input.  [New(5, 7)] does not panic: the two
    integers reach [prepareProperty] as one slice, are printed and joined,
    and the result is a node without a code whose cause has the text
    [5, 7].  No call of [New] ends in the panic [code duplication]. *)
Theorem New_two_ints :
  New [any_int 5; any_int 7]
  = Ok (ptr_Error (set_Err (new_Error 2) (foreign "5, 7"))) /\
  Code (set_Err (new_Error 2) (foreign "5, 7")) = 0 /\
  (forall args, New args <> Panic "code duplication").
Proof.
  split; [ | split].
  - rewrite New_unfold. cbn [prepareProperty]. rewrite set_joined_fresh.
    + reflexivity.
    + apply new_Error_fresh.
  - destruct (new_Error_fresh 2) as (_ & Hc & _).
    now destruct (new_Error 2).
  - intros args. apply New_no_duplication_panic.
Qed.

(** C3, at the failing input.  [New(err1, err2)] with two errors does not
    panic: the result is a node whose cause is a new error with the two
    texts joined.  No call of [New] ends in the panic [error duplication]. *)
Theorem New_two_causes :
  New [any_error (foreign "first"); any_error (foreign "second")]
  = Ok (ptr_Error (set_Err (new_Error 2) (foreign "first, second"))) /\
  (forall args, New args <> Panic "error duplication").
Proof.
  split.
  - rewrite New_unfold. cbn [prepareProperty]. rewrite set_joined_fresh.
    + reflexivity.
    + apply new_Error_fresh.
  - intros args. apply New_no_duplication_panic.
Qed.

(** C5, at the failing inputs.  [New("A", "A")] and [New("A", "B")] leave
    the operation of the node empty: the labels are joined into the text of
    a new cause, [A, A] and [A, B]. *)
Theorem New_two_labels :
  (exists e, New [any_string "A"; any_string "A"] = Ok (ptr_Error e) /\
             Op e = "" /\ Err e = foreign "A, A") /\
  (exists e, New [any_string "A"; any_string "B"] = Ok (ptr_Error e) /\
             Op e = "" /\ Err e = foreign "A, B").
Proof.
  destruct (new_Error_fresh 2) as (Ho & _ & Hx).
  split; eexists; (split; [ | split]).
  1,4: rewrite New_unfold; cbn [prepareProperty];
       rewrite set_joined_fresh by exact Hx; reflexivity.
  all: destruct (new_Error 2); first [exact Ho | reflexivity].
Qed.

(** *** Nil properties *)

Lemma prepareProperties_nil (e : Error) (before after : list any) :
  prepareProperties e (before ++ any_nil :: after)%list
  = match prepareProperties e before with
    | Panic msg => Panic msg
    | Ok _ => Ok None
    end.
Proof.
  revert e. induction before as [ | a before IH ]; intros e; [reflexivity | ].
  cbn [app prepareProperties].
  destruct (prepareProperty e a) as [[e' [ | ]] | msg]; [apply IH | | ]; reflexivity.
Qed.

Lemma NewLevel_no_args (codeLevel : Z) :
  NewLevel codeLevel [] = Ok (ptr_Error (new_Error codeLevel)).
Proof. reflexivity. Qed.

(** C4, as the code has it.  A nil property is not skipped: with a nil
    anywhere in the properties of [NewLevel] the construction yields the
    absent value, once the properties before it have been applied without
    a panic.  [NewLevel] with the single property nil, [New(nil)] and
    [New()] yield the absent value and not an empty node. *)
Theorem NewLevel_nil_property (codeLevel : Z) (before after : list any) :
  NewLevel codeLevel (before ++ any_nil :: after)%list
  = match prepareProperties (new_Error codeLevel) before with
    | Panic msg => Panic msg
    | Ok _ => Ok nil_error
    end /\
  (forall e, NewLevel codeLevel (before ++ any_nil :: after)%list
             <> Ok (ptr_Error e)) /\
  NewLevel codeLevel [any_nil] = Ok nil_error /\
  New [any_nil] = Ok nil_error /\
  New [] = Ok nil_error.
Proof.
  assert (Heq : NewLevel codeLevel (before ++ any_nil :: after)%list
                = match prepareProperties (new_Error codeLevel) before with
                  | Panic msg => Panic msg
                  | Ok _ => Ok nil_error
                  end);
    [ | split; [exact Heq | split; [ | repeat split]];
        intros e; rewrite Heq;
        destruct (prepareProperties (new_Error codeLevel) before);
        discriminate ].
  unfold NewLevel. rewrite prepareProperties_nil.
  destruct before as [ | a [ | b before ] ]; cbn [app].
  - destruct after; reflexivity.
  - cbn [prepareProperties].
    destruct (prepareProperty (new_Error codeLevel) a) as [[e [ | ]] | msg];
      reflexivity.
  - destruct (prepareProperties (new_Error codeLevel) (a :: b :: before))
      as [[e | ] | msg]; reflexivity.
Qed.

(** *** A collection of errors *)

(** C9, as the code has it by design.  [prepareProperty] handles a
    collection of errors of length one as its element, whatever the node.
    A collection of any other length has its nil entries left out and the
    texts of the others joined with a comma and a space into the text of
    one new cause, which is set when the node has no cause and is the
    panic [error duplication] when it has one; when no entry is left the
    answer is false and the node is as it was.  So [New] with a collection
    as its only argument is [New] with the element when the length is one,
    yields the absent value when no entry is left, and otherwise a node
    with the new cause; with three errors the cause renders as the three
    texts so joined.  Nothing is said of a collection among several
    arguments of [New]. *)
Theorem New_collection :
  (forall e x,
     prepareProperty e (any_errors [x]) = prepareProperty e (any_error x)) /\
  (forall e v, List.length v <> 1%nat ->
     prepareProperty e (any_errors v)
     = match error_texts v with
       | [] => Ok (e, false)
       | errs => if is_nil (Err e)
                 then Ok (set_Err e (errors_New (Join errs ", ")), true)
                 else Panic "error duplication"
       end) /\
  (forall x, New [any_errors [x]] = New [any_error x]) /\
  (forall v, List.length v <> 1%nat ->
     New [any_errors v]
     = match error_texts v with
       | [] => Ok nil_error
       | errs => Ok (ptr_Error (set_Err (new_Error 2) (errors_New (Join errs ", "))))
       end) /\
  (forall v, error_texts v = map error_text (filter (fun x => negb (is_nil x)) v)) /\
  (forall e1 e2 e3, e1 <> nil_error -> e2 <> nil_error -> e3 <> nil_error ->
     exists e, New [any_errors [e1; e2; e3]] = Ok (ptr_Error e) /\
               error_text (Err e)
               = error_text e1 ++ ", " ++ error_text e2 ++ ", " ++ error_text e3).
Proof.
  destruct (new_Error_fresh 2) as (_ & _ & Hx).
  split; [ | split; [ | split; [ | split; [ | split]]]].
  - reflexivity.
  - intros e v Hv. cbn [prepareProperty].
    destruct v as [ | x [ | y v ] ]; [ | now elim Hv | ];
      unfold set_joined; destruct (error_texts _); cbn [List.length Z.of_nat];
      try reflexivity;
      destruct (is_nil (Err e)); reflexivity.
  - intros x. rewrite !New_unfold. reflexivity.
  - intros v Hv. rewrite New_unfold. cbn [prepareProperty].
    destruct v as [ | x [ | y v ] ]; [ | now elim Hv | ];
      rewrite set_joined_fresh by exact Hx;
      destruct (error_texts _); reflexivity.
  - apply error_texts_filter.
  - intros e1 e2 e3 H1 H2 H3. apply is_nil_false in H1, H2, H3.
    eexists. split.
    + rewrite New_unfold. cbn [prepareProperty].
      rewrite set_joined_fresh by exact Hx.
      unfold error_texts. cbn [flat_map app]. rewrite H1, H2, H3.
      cbn [app]. reflexivity.
    + destruct (new_Error 2). reflexivity.
Qed.

(** *** What a property leaves alone *)

Ltac frame_cases e :=
  repeat match goal with
         | |- context [if ?c then _ else _] => destruct c
         end;
  try discriminate;
  intros [= <- <-]; try (intros; discriminate); destruct e; auto.

Ltac split_ifs :=
  repeat match goal with
         | |- context [if ?c then _ else _] => destruct c eqn:?
         end.

Ltac frame_finish e :=
  try discriminate;
  intros [= <- <-];
  (split;
   [ intros Hb; try discriminate Hb; reflexivity
   | intros Hx; destruct e as [? ? ? []]; cbn in *;
     try reflexivity; try congruence; try discriminate ]).

Lemma prepareProperty_place (arg : any) :
  forall e e' b, prepareProperty e arg = Ok (e', b) -> Place e' = Place e.
Proof.
  revert arg. fix IH 1. intros arg e e' b.
  destruct arg as [ | v | v | v | v | v | v | v | v | ty text ];
    cbn [prepareProperty]; unfold prepareError, set_joined.
  1-6, 9-10: frame_cases e.
  - destruct v as [ | x [ | y l ] ]; frame_cases e.
  - destruct v as [ | x [ | y l ] ]; [frame_cases e | apply IH | frame_cases e].
Qed.

Lemma prepareProperties_place (args : list any) :
  forall e e', prepareProperties e args = Ok (Some e') -> Place e' = Place e.
Proof.
  induction args as [ | arg args IH ]; intros e e'; cbn [prepareProperties].
  - now intros [= <-].
  - destruct (prepareProperty e arg) as [[e1 [ | ]] | msg] eqn:E;
      try discriminate.
    intros H. rewrite (IH _ _ H). exact (prepareProperty_place _ _ _ _ E).
Qed.

(** X13.  A property that makes [prepareProperty] answer false leaves the
    node as it was, and a node that has a cause keeps that cause through
    every property that does not panic. *)
Theorem prepareProperty_frame (arg : any) :
  forall e e' b, prepareProperty e arg = Ok (e', b) ->
    (b = false -> e' = e) /\ (Err e <> nil_error -> Err e' = Err e).
Proof.
  revert arg. fix IH 1. intros arg e e' b.
  destruct arg as [ | v | v | v | v | v | v | v | v | ty text ];
    cbn [prepareProperty]; unfold prepareError, set_joined.
  1-6, 9-10: split_ifs; frame_finish e.
  - destruct v as [ | x [ | y l ] ]; split_ifs; frame_finish e.
  - destruct v as [ | x [ | y l ] ];
      [split_ifs; frame_finish e | apply IH | split_ifs; frame_finish e].
Qed.

(** X14.  A node built by [NewLevel] or by [New] carries the place captured
    when the construction began: no property changes it. *)
Theorem NewLevel_keeps_place (codeLevel : Z) (args : list any) (e : Error) :
  (NewLevel codeLevel args = Ok (ptr_Error e) ->
   Place e = Place (new_Error codeLevel)) /\
  (New args = Ok (ptr_Error e) -> Place e = Place (new_Error 2)).
Proof.
  assert (H : forall lvl l, NewLevel lvl l = Ok (ptr_Error e) ->
                            Place e = Place (new_Error lvl)).
  { intros lvl l. unfold NewLevel.
    assert (Hc : match prepareProperties (new_Error lvl) l with
                 | Panic msg => Panic msg
                 | Ok None => Ok nil_error
                 | Ok (Some e0) => Ok (ptr_Error e0)
                 end = Ok (ptr_Error e) -> Place e = Place (new_Error lvl)).
    { destruct (prepareProperties (new_Error lvl) l) as [[e0 | ] | msg] eqn:E;
        try discriminate.
      intros [= <-]. exact (prepareProperties_place _ _ _ E). }
    destruct l as [ | a [ | b l ] ]; try exact Hc.
    destruct (any_is_nil a); [discriminate | exact Hc]. }
  split; [apply H | apply (H 2 [any_slice args])].
Qed.

(** *** One property *)

(** X15.  [New] with one property of a supported kind builds the node the
    property describes: a label gives the operation, also when it is
    empty; an integer gives the code; a domain error code gives the code
    and, as operation, its name; an error that is not nil becomes the
    cause, with operation and code unset. *)
Theorem New_single_property :
  (forall v, New [any_string v] = Ok (ptr_Error (set_Op (new_Error 2) v))) /\
  (forall v, New [any_int v] = Ok (ptr_Error (set_Code (new_Error 2) v))) /\
  (forall v, New [any_ErrNo v]
             = Ok (ptr_Error (set_Op (set_Code (new_Error 2) v) (eno_Name v)))) /\
  (forall v, v <> nil_error ->
             New [any_error v] = Ok (ptr_Error (set_Err (new_Error 2) v)) /\
             Op (set_Err (new_Error 2) v) = "" /\
             Code (set_Err (new_Error 2) v) = 0).
Proof.
  destruct (new_Error_fresh 2) as (Ho & Hc & Hx).
  repeat split.
  - intros v. rewrite New_unfold. cbn [prepareProperty]. now rewrite Ho.
  - intros v. rewrite New_unfold. cbn [prepareProperty]. now rewrite Hc.
  - intros v. rewrite New_unfold. cbn [prepareProperty].
    replace (Op (set_Code (new_Error 2) v)) with (Op (new_Error 2))
      by now destruct (new_Error 2).
    now rewrite Ho.
  - rewrite New_unfold. cbn [prepareProperty]. unfold prepareError.
    apply is_nil_false in H. now rewrite H, Hx.
  - now destruct (new_Error 2).
  - now destruct (new_Error 2).
Qed.

(** X16.  [NewFmt] always returns a node, never the absent value and never
    a panic: its operation is the formatted text, also when that is empty,
    and it has neither code nor cause. *)
Theorem NewFmt_node (formatted : string) :
  exists e, NewFmt formatted = Ok (ptr_Error e) /\
            Op e = formatted /\ Code e = 0 /\ Err e = nil_error /\
            Place e = Place (new_Error 2).
Proof.
  destruct (new_Error_fresh 2) as (Ho & Hc & Hx).
  exists (set_Op (new_Error 2) formatted). split.
  - unfold NewFmt. rewrite New_unfold. cbn [prepareProperty]. now rewrite Ho.
  - destruct (new_Error 2). cbn in *. auto.
Qed.

(** *** Several properties spread out *)

(** X17.  In [NewLevel] the order of two codes matters: a domain error code
    after a plain integer replaces it without a panic and gives its name
    to the operation, whereas a plain integer after a domain error code
    that is not zero panics. *)
Theorem NewLevel_code_order (codeLevel a b : Z) :
  NewLevel codeLevel [any_int a; any_ErrNo b]
  = Ok (ptr_Error (mkError (eno_Name b) b (Place (new_Error codeLevel)) nil_error)) /\
  (a <> 0 ->
   NewLevel codeLevel [any_ErrNo a; any_int b] = Panic "code duplication").
Proof.
  destruct (new_Error_fresh codeLevel) as (Ho & Hc & Hx).
  unfold NewLevel. cbn [prepareProperties prepareProperty].
  destruct (new_Error codeLevel) as [o c p x]. cbn in Ho, Hc, Hx. subst o c x.
  cbn. split; [reflexivity | ].
  intros Ha. destruct (nonempty (eno_Name a)); cbn;
    destruct (Z.eqb_spec a 0); try contradiction; reflexivity.
Qed.

(** X18.  [NewLevel] with a label, an integer and an error that is not nil
    builds the node with exactly these three and the captured place; the
    operation list of that node is the label followed by the list of the
    error, its top-level code is the integer, or that of the error when
    the integer is zero, and unwrapping it gives the error. *)
Theorem NewLevel_label_code_cause (codeLevel : Z) (op : string) (code : Z)
        (cause : error) :
  cause <> nil_error ->
  let w := mkError op code (Place (new_Error codeLevel)) cause in
  NewLevel codeLevel [any_string op; any_int code; any_error cause]
  = Ok (ptr_Error w) /\
  Ops (ptr_Error w) = op :: Ops cause /\
  TopCode (ptr_Error w) = (if code =? 0 then TopCode cause else code) /\
  Unwrap (ptr_Error w) = cause.
Proof.
  intros Hn w. apply is_nil_false in Hn.
  destruct (new_Error_fresh codeLevel) as (Ho & Hc & Hx).
  split; [ | split; [ | split]].
  - unfold NewLevel, w. cbn [prepareProperties prepareProperty].
    unfold prepareError.
    destruct (new_Error codeLevel) as [o c p x]. cbn in Ho, Hc, Hx. subst o c x.
    cbn. now rewrite Hn.
  - unfold w. cbn [Ops Op Err]. now rewrite Hn.
  - reflexivity.
  - unfold w. cbn [Unwrap]. unfold Error_Unwrap. cbn [Err]. now rewrite Hn.
Qed.

End Construction.

(** ** The construction in the example environment *)

(** The failing inputs of C2, C3 and C5 evaluated, next to what [NewLevel]
    does with the same properties spread out. *)
Example New_in_example_environment :
  New example_Caller example_Name example_String [any_int 5; any_int 7]
  = Ok (ptr_Error (mkError "" 0 "main.run (main.go:42)" (foreign "5, 7"))) /\
  NewLevel example_Caller example_Name example_String 2 [any_int 5; any_int 7]
  = Panic "code duplication" /\
  New example_Caller example_Name example_String
    [any_string "A"; any_string "B"]
  = Ok (ptr_Error (mkError "" 0 "main.run (main.go:42)" (foreign "A, B"))) /\
  NewLevel example_Caller example_Name example_String 2
    [any_string "A"; any_string "B"]
  = Ok (ptr_Error (mkError "A, B" 0 "main.run (main.go:42)" nil_error)) /\
  New example_Caller example_Name example_String [any_string "A"]
  = Ok (ptr_Error (mkError "A" 0 "main.run (main.go:42)" nil_error)).
Proof. repeat split. Qed.

(** C4, as the claim states it, fails: a nil after the label [A] makes
    [NewLevel] yield the absent value, and makes [New] yield a node whose
    cause has the text [A], where the label alone gives a node with the
    operation [A]. *)
Lemma nil_property_changes_result :
  NewLevel example_Caller example_Name example_String 2
    [any_string "A"; any_nil] = Ok nil_error /\
  NewLevel example_Caller example_Name example_String 2 [any_string "A"]
  = Ok (ptr_Error (mkError "A" 0 "main.run (main.go:42)" nil_error)) /\
  New example_Caller example_Name example_String [any_string "A"; any_nil]
  = Ok (ptr_Error (mkError "" 0 "main.run (main.go:42)" (foreign "A"))) /\
  New example_Caller example_Name example_String [any_string "A"; any_nil]
  <> New example_Caller example_Name example_String [any_string "A"].
Proof. repeat split. discriminate. Qed.

(** C9, as the claim states it, fails: a collection of a node with code 42
    and a nil has one entry that is not nil, yet it is not handled as that
    node; the cause of the result is a new error with the text of the node,
    and the code 42 is lost. *)
Lemma collection_with_one_error_and_nil :
  let e1 := ptr_Error (mkError "" 42 "" nil_error) in
  let collection := New example_Caller example_Name example_String
                      [any_errors [e1; nil_error]] in
  let single := New example_Caller example_Name example_String [any_error e1] in
  collection
  = Ok (ptr_Error (mkError "" 0 "main.run (main.go:42)"
                     (foreign "code: 42, source: ; code: 42"))) /\
  single = Ok (ptr_Error (mkError "" 0 "main.run (main.go:42)" e1)) /\
  collection <> single.
Proof. repeat split. discriminate. Qed.

Lemma New_collection_witness :
  prepareProperty example_Name example_String
    (mkError "op" 0 "p" (foreign "old")) (any_errors [foreign "a"; foreign "b"])
  = Panic "error duplication" /\
  New example_Caller example_Name example_String
    [any_errors [foreign "a"; nil_error; foreign "b"]]
  = Ok (ptr_Error (mkError "" 0 "main.run (main.go:42)" (foreign "a, b"))) /\
  exists e,
    New example_Caller example_Name example_String
      [any_errors [foreign "a"; foreign "b"; foreign "c"]] = Ok (ptr_Error e) /\
    error_text (Err e) = "a, b, c".
Proof.
  pose proof (New_collection example_Caller example_Name example_String)
    as (_ & Hprop & _ & Hjoin & _ & Hthree).
  split; [ | split].
  - apply (Hprop (mkError "op" 0 "p" (foreign "old")) [foreign "a"; foreign "b"]).
    simpl. lia.
  - apply (Hjoin [foreign "a"; nil_error; foreign "b"]). simpl. lia.
  - apply (Hthree (foreign "a") (foreign "b") (foreign "c")); discriminate.
Defined.

(** ** Induction along a chain *)

Lemma error_chain_ind (P : error -> Prop) :
  P nil_error ->
  (forall text, P (foreign text)) ->
  (forall o c p x, P x -> P (ptr_Error (mkError o c p x))) ->
  forall e, P e.
Proof.
  intros Hnil Hforeign Hnode.
  fix IH 1.
  intros [ | [o c p x] | text ].
  - exact Hnil.
  - apply Hnode, IH.
  - apply Hforeign.
Qed.

(** ** Top-level code *)

Lemma TopCode_node (v : Error) :
  TopCode (ptr_Error v) = if Code v =? 0 then TopCode (Err v) else Code v.
Proof. reflexivity. Qed.

(** C1, as the code has it.  [TopCode] returns the code of the outermost
    node of the chain whose own code is not zero, and zero when there is
    none: a node's own code is used when it is not zero, and the cause is
    asked only otherwise.  A value that is not a node gives 0 and so does
    nil. *)
Theorem TopCode_outermost_nonzero :
  TopCode nil_error = 0 /\
  (forall text, TopCode (foreign text) = 0) /\
  (forall v, TopCode (ptr_Error v)
             = if Code v =? 0 then TopCode (Err v) else Code v) /\
  (forall e, TopCode e
             = match find (fun v => negb (Code v =? 0)) (nodes e) with
               | Some v => Code v
               | None => 0
               end).
Proof.
  repeat split.
  induction e as [ | text | o c p x IH ] using error_chain_ind; try reflexivity.
  rewrite TopCode_node. cbn [nodes find Code Err].
  destruct (c =? 0); [exact IH | reflexivity].
Qed.

(** C1, as the claim states it, fails: on a two-node chain with codes 1
    (outer) and 2 (inner) the code returns 1, the deepest-first reading 2. *)
Lemma TopCode_not_deepest :
  let chain := ptr_Error (mkError "" 1 "" (ptr_Error (mkError "" 2 "" nil_error))) in
  TopCode chain = 1 /\ TopCode_deepest chain = 2 /\
  TopCode chain <> TopCode_deepest chain.
Proof. cbv. repeat split; discriminate. Qed.

(** The two readings agree when at most the innermost node carries a code,
    as in the three-node chain whose innermost code is 42. *)
Example TopCode_three_deep :
  TopCode (ptr_Error (mkError "a" 0 ""
            (ptr_Error (mkError "b" 0 ""
              (ptr_Error (mkError "c" 42 "" nil_error)))))) = 42.
Proof. reflexivity. Qed.

(** ** Unwrap *)

(** C7.  The [Unwrap] method of a node without a cause returns the node
    itself, which is not nil; on a node with a cause it returns the cause. *)
Theorem Error_Unwrap_spec (e : Error) :
  (Err e = nil_error ->
   Error_Unwrap e = ptr_Error e /\ Error_Unwrap e <> nil_error) /\
  (Err e <> nil_error -> Error_Unwrap e = Err e).
Proof.
  unfold Error_Unwrap. split.
  - intros ->. simpl. split; [reflexivity | discriminate].
  - intros H. apply is_nil_false in H. now rewrite H.
Qed.

Lemma Error_Unwrap_spec_witness :
  (Error_Unwrap zero_Error = ptr_Error zero_Error /\
   Error_Unwrap zero_Error <> nil_error) /\
  Error_Unwrap (mkError "op" 0 "" (foreign "boom")) = foreign "boom".
Proof.
  split.
  - apply (proj1 (Error_Unwrap_spec zero_Error)). reflexivity.
  - apply (proj2 (Error_Unwrap_spec (mkError "op" 0 "" (foreign "boom")))).
    simpl. discriminate.
Defined.

(** ** Code membership *)

Lemma cause_at_nil (d : nat) : cause_at d nil_error = nil_error.
Proof. destruct d; reflexivity. Qed.

Lemma cause_at_foreign (d : nat) (text : string) :
  cause_at (S d) (foreign text) = nil_error.
Proof. reflexivity. Qed.

Lemma IsCode_node (e : Error) (code : Z) :
  IsCode (ptr_Error e) code
  = (TopCode (ptr_Error e) =? code) || (negb (is_nil (Err e)) && IsCode (Err e) code).
Proof.
  cbn [IsCode].
  destruct (TopCode (ptr_Error e) =? code); [reflexivity | ].
  destruct (is_nil (Err e)); reflexivity.
Qed.

Lemma IsCode_foreign (text : string) (code : Z) :
  IsCode (foreign text) code = (0 =? code).
Proof. cbn [IsCode TopCode]. destruct (0 =? code); reflexivity. Qed.

Lemma IsCode_depth (err : error) (code : Z) :
  IsCode err code = true <->
  exists d, cause_at d err <> nil_error /\ TopCode (cause_at d err) = code.
Proof.
  induction err as [ | text | o c p x IH ] using error_chain_ind.
  - split; [discriminate | ].
    intros [d [H _]]. now rewrite cause_at_nil in H.
  - rewrite IsCode_foreign, Z.eqb_eq. split.
    + intros <-. exists O. split; [discriminate | reflexivity].
    + intros [[ | d] [H Hc]]; [exact Hc | now rewrite cause_at_foreign in H].
  - rewrite IsCode_node, orb_true_iff, andb_true_iff, negb_true_iff, Z.eqb_eq.
    cbn [Err]. split.
    + intros [Htop | [_ Hrec]].
      * exists O. split; [discriminate | exact Htop].
      * apply IH in Hrec. destruct Hrec as [d Hd]. exists (S d). exact Hd.
    + intros [[ | d] [Hnn Hc]].
      * left. exact Hc.
      * right. cbn [cause_at Err] in Hnn, Hc. split.
        -- apply is_nil_false. intros ->. now rewrite cause_at_nil in Hnn.
        -- apply IH. exists d. split; assumption.
Qed.

(** C8, as the code has it.  [IsCode] on nil is false; on a chain it is true
    exactly when the target is the top-level code of the chain taken from
    some depth on, the foreign error that ends a chain counting as a depth
    with top-level code 0; equivalently, when the top-level code of the
    chain is the target, or the error is a node whose cause is not nil
    (node or foreign) and the test on that cause finds the target. *)
Theorem IsCode_spec (err : error) (code : Z) :
  IsCode nil_error code = false /\
  (IsCode err code = true <->
   exists d, cause_at d err <> nil_error /\ TopCode (cause_at d err) = code) /\
  (IsCode err code = true <->
   err <> nil_error /\
   (TopCode err = code \/
    exists e, err = ptr_Error e /\ Err e <> nil_error /\
              IsCode (Err e) code = true)).
Proof.
  split; [reflexivity | ]. split; [apply IsCode_depth | ].
  destruct err as [ | e | text ].
  - split; [discriminate | intros [H _]; now elim H].
  - rewrite IsCode_node, orb_true_iff, andb_true_iff, negb_true_iff,
      Z.eqb_eq, is_nil_false.
    split.
    + intros [H | [Hn Hr]]; (split; [discriminate | ]); [now left | right].
      exists e. repeat split; assumption.
    + intros [_ [H | [e' [He [Hn Hr]]]]]; [now left | right].
      injection He as <-. split; assumption.
  - rewrite IsCode_foreign, Z.eqb_eq. cbn [TopCode]. split.
    + intros H. split; [discriminate | now left].
    + intros [_ [H | [e' [He _]]]]; [exact H | discriminate].
Qed.

(** C8, as the claim states it, fails: with a node of code 5 over a foreign
    cause and the target 0 the code answers true, through the foreign cause,
    although the top-level code is 5 and the cause is not a node. *)
Lemma IsCode_through_foreign_cause :
  let chain := ptr_Error (mkError "" 5 "" (foreign "boom")) in
  IsCode chain 0 = true /\ ~ has_code_via_node_cause chain 0.
Proof.
  split; [reflexivity | ].
  intros [H | [e [cause [He [Hc _]]]]].
  - discriminate H.
  - injection He as <-. discriminate Hc.
Qed.

(** ** Trace and rendering *)

Lemma Trace_node (v : Error) :
  Trace (ptr_Error v) = trace_info v :: Trace (Err v).
Proof.
  cbn [Trace]. destruct (Err v); reflexivity.
Qed.

Lemma Trace_nodes (e : error) : Trace e = map trace_info (nodes e).
Proof.
  induction e as [ | text | o c p x IH ] using error_chain_ind; try reflexivity.
  rewrite Trace_node. cbn [nodes map Err]. now rewrite IH.
Qed.

Lemma last_cons_default {A : Type} (l : list A) (a d : A) :
  last (a :: l) d = last l a.
Proof.
  revert a d. induction l as [ | b l IH ]; intros a d; [reflexivity | ].
  change (last (a :: b :: l) d) with (last (b :: l) d).
  now rewrite (IH b d), (IH b a).
Qed.

Lemma last_map_default {A B : Type} (f : A -> B) (l : list A) (d : A) :
  last (map f l) (f d) = f (last l d).
Proof.
  induction l as [ | a [ | b l ] IH ]; try reflexivity. exact IH.
Qed.

Lemma last_Trace (v : Error) :
  last (Trace (ptr_Error v)) "" = trace_info (innermost v).
Proof.
  rewrite Trace_node, last_cons_default, Trace_nodes.
  apply last_map_default.
Qed.

Lemma Error_Error_parts (e : Error) :
  Error_Error e
  = if is_nil (Err e) then Join (render_parts e) ", "
    else Join (render_parts e) ", " ++ " => " ++ error_text (Err e).
Proof.
  destruct e as [op own place cause]. unfold render_parts.
  cbn [Error_Error Op Err].
  set (node := ptr_Error (mkError op own place cause)).
  assert (Hlen : (0 <? Z.of_nat (List.length (Trace node))) = true).
  { unfold node. rewrite Trace_node. reflexivity. }
  rewrite Hlen.
  destruct (nonempty op), (0 <? TopCode node), (is_nil cause); reflexivity.
Qed.

(** C6, as the code has it by design.  For a node that has an operation, a
    strictly positive top-level code or a cause, the rendering is made of
    the part [op: <operation>] exactly when the operation is not empty, the
    part [code: <code>] exactly when the top-level code is strictly
    positive, and the part [source: <last trace entry>], the trace of a
    node never being empty; the parts are joined with a comma and a space,
    and an arrow followed by the rendering of the cause is added when there
    is a cause.  The last trace entry is the entry of the innermost node.
    Nothing is said of a node with none of the three. *)
Theorem Error_Error_format (e : Error) :
  nonempty (Op e) = true \/ 0 < TopCode (ptr_Error e) \/ Err e <> nil_error ->
  Error_Error e
  = (if is_nil (Err e) then Join (render_parts e) ", "
     else Join (render_parts e) ", " ++ " => " ++ error_text (Err e)) /\
  last (Trace (ptr_Error e)) "" = trace_info (innermost e) /\
  Trace (ptr_Error e) <> [].
Proof.
  intros _.
  split; [apply Error_Error_parts | ]. split; [apply last_Trace | ].
  rewrite Trace_node. discriminate.
Qed.

Lemma Error_Error_format_witness :
  Error_Error (mkError "load" 3 "p" (foreign "boom"))
  = (if is_nil (Err (mkError "load" 3 "p" (foreign "boom")))
     then Join (render_parts (mkError "load" 3 "p" (foreign "boom"))) ", "
     else Join (render_parts (mkError "load" 3 "p" (foreign "boom"))) ", "
          ++ " => " ++ error_text (Err (mkError "load" 3 "p" (foreign "boom")))) /\
  last (Trace (ptr_Error (mkError "load" 3 "p" (foreign "boom")))) ""
  = trace_info (innermost (mkError "load" 3 "p" (foreign "boom"))) /\
  Trace (ptr_Error (mkError "load" 3 "p" (foreign "boom"))) <> [].
Proof.
  apply (Error_Error_format (mkError "load" 3 "p" (foreign "boom"))).
  left. reflexivity.
Defined.

(** C6, as the claim states it, fails: a node with the operation [load]
    and the code -1 has a top-level code that is not zero, yet its
    rendering has no [code: ] part of its own; only the trace entry after
    [source: ] shows the code. *)
Lemma Error_Error_negative_code :
  let e := mkError "load" (-1) "here" nil_error in
  TopCode (ptr_Error e) <> 0 /\
  Error_Error e = "op: load, source: here; op: load; code: -1" /\
  Error_Error e <> "op: load, code: -1, source: here; op: load; code: -1".
Proof.
  repeat split; discriminate.
Qed.

(** The node with no operation, no code and no cause: the branch of the
    later version that returns the word undefined is behind the test that
    no part was gathered, and the source part is always gathered before
    it; the earlier version, which has no source part, takes the branch. *)
Lemma Error_Error_empty_node :
  Error_Error zero_Error = "source: " /\
  Earlier.Error_Error zero_Error = "undefined".
Proof. split; reflexivity. Qed.

Example Error_Error_chain :
  Error_Error (mkError "load" 3 "p" (ptr_Error (mkError "read" 4 "q" (foreign "boom"))))
  = "op: load, code: 3, source: q; op: read; code: 4 => op: read, code: 4, source: q; op: read; code: 4 => boom".
Proof. reflexivity. Qed.


(** ** Matching along the chain *)

Lemma error_eqb_eq (a b : error) : error_eqb a b = true <-> a = b.
Proof.
  revert b. induction a as [ | s | o c p x IH ] using error_chain_ind; intros b.
  - destruct b; cbn; split; congruence.
  - destruct b as [ | w | t ]; cbn [error_eqb]; try (split; congruence).
    rewrite String.eqb_eq. split; congruence.
  - destruct b as [ | [o' c' p' x'] | t ]; cbn [error_eqb Error_eqb];
      try (split; congruence).
    rewrite !andb_true_iff, !String.eqb_eq, Z.eqb_eq, IH.
    split; [intros [[[-> ->] ->] ->]; reflexivity | ].
    intros [= -> -> -> ->]. auto.
Qed.

Lemma error_eqb_neq (a b : error) : a <> b -> error_eqb a b = false.
Proof.
  intros H. destruct (error_eqb a b) eqn:E; [ | reflexivity].
  now apply error_eqb_eq in E.
Qed.

(** More fuel does not change an answer. *)
Lemma errors_is_more_fuel (fuel : nat) :
  forall err target b, errors_is fuel err target = Some b ->
                       errors_is (S fuel) err target = Some b.
Proof.
  induction fuel as [ | fuel IH ]; intros err target b; [discriminate | ].
  intros H. cbn [errors_is] in H. change (errors_is (S (S fuel)) err target)
    with (if error_eqb err target then Some true
          else match err with
               | ptr_Error e =>
                   if is_nil (Error_Unwrap e) then Some false
                   else errors_is (S fuel) (Error_Unwrap e) target
               | _ => Some false
               end).
  destruct (error_eqb err target); [exact H | ].
  destruct err as [ | e | text ]; try exact H.
  destruct (is_nil (Error_Unwrap e)); [exact H | ].
  apply IH, H.
Qed.

(** The loop ends on every chain that ends in a foreign error. *)
Lemma errors_is_ends_at_foreign (err target : error) :
  (exists d text, cause_at d err = foreign text) ->
  exists fuel b, errors_is fuel err target = Some b.
Proof.
  induction err as [ | s | o c p x IH ] using error_chain_ind.
  - intros (d & text & H). rewrite cause_at_nil in H. discriminate.
  - intros _. exists 1%nat. cbn [errors_is].
    destruct (error_eqb (foreign s) target); eauto.
  - intros ([ | d] & text & H); [discriminate | ].
    cbn [cause_at Err] in H.
    assert (Hx : is_nil x = false).
    { apply is_nil_false. intros ->. rewrite cause_at_nil in H. discriminate. }
    destruct IH as (fuel & b & Hb); [eauto | ].
    exists (S fuel). cbn [errors_is].
    destruct (error_eqb _ target); [eauto | ].
    unfold Error_Unwrap. cbn [Err]. rewrite Hx, Hx. eauto.
Qed.

Lemma Unwrap_leaf_iter (e : Error) (k : nat) :
  Err e = nil_error -> Nat.iter k Unwrap (ptr_Error e) = ptr_Error e.
Proof.
  intros Hx. induction k as [ | k IH ]; [reflexivity | ].
  rewrite Nat.iter_succ, IH. cbn [Unwrap]. unfold Error_Unwrap.
  now rewrite Hx.
Qed.

(** C10, as the code has it.  A node without a cause is a fixed point of
    unwrapping: unwrapping it any number of times gives the same node and
    never nil.  So [Is] on such a node, with a target that is not nil and
    not equal to the node, does not return: the loop runs out of any amount
    of fuel. *)
Theorem Is_diverges_on_leaf_node (e : Error) (target : error) :
  Err e = nil_error -> target <> nil_error -> target <> ptr_Error e ->
  Unwrap (ptr_Error e) = ptr_Error e /\
  (forall k, Nat.iter k Unwrap (ptr_Error e) = ptr_Error e) /\
  (forall k, Nat.iter k Unwrap (ptr_Error e) <> nil_error) /\
  (forall fuel, Is fuel (ptr_Error e) target = None).
Proof.
  intros Hx Hnil Hne.
  split; [exact (Unwrap_leaf_iter e 1 Hx) | ].
  split; [intros k; now apply Unwrap_leaf_iter | ].
  split; [intros k; rewrite Unwrap_leaf_iter by exact Hx; discriminate | ].
  intros fuel. unfold Is. apply is_nil_false in Hnil. rewrite Hnil.
  cbn [is_nil orb].
  assert (Heq : error_eqb (ptr_Error e) target = false)
    by (apply error_eqb_neq; congruence).
  induction fuel as [ | fuel IH ]; [reflexivity | ].
  cbn [errors_is]. rewrite Heq. unfold Error_Unwrap. rewrite Hx.
  cbn [is_nil]. exact IH.
Qed.

Lemma Is_diverges_on_leaf_node_witness :
  Unwrap (ptr_Error zero_Error) = ptr_Error zero_Error /\
  (forall k, Nat.iter k Unwrap (ptr_Error zero_Error) = ptr_Error zero_Error) /\
  (forall k, Nat.iter k Unwrap (ptr_Error zero_Error) <> nil_error) /\
  (forall fuel, Is fuel (ptr_Error zero_Error) (foreign "boom") = None).
Proof.
  apply (Is_diverges_on_leaf_node zero_Error (foreign "boom")).
  - reflexivity.
  - discriminate.
  - discriminate.
Defined.

(** C10, as the claim states it, fails: nil is a target that is not equal
    to the node, and [Is] answers false for it at once, before the loop. *)
Lemma Is_nil_target_returns :
  Err zero_Error = nil_error /\ nil_error <> ptr_Error zero_Error /\
  forall fuel, Is fuel (ptr_Error zero_Error) nil_error = Some false.
Proof. repeat split. discriminate. Qed.

(** On a chain that ends in a foreign error the loop returns. *)
Example Is_returns_on_foreign_end :
  Is 3 (ptr_Error (mkError "a" 0 "" (ptr_Error (mkError "b" 0 "" (foreign "boom")))))
       (foreign "boom") = Some true /\
  Is 3 (ptr_Error (mkError "a" 0 "" (ptr_Error (mkError "b" 0 "" (foreign "boom")))))
       (foreign "other") = Some false.
Proof. split; reflexivity. Qed.

(** ** More on the chain traversal *)

Lemma terminal_not_node (e : error) (v : Error) : terminal e <> ptr_Error v.
Proof.
  induction e as [ | text | o c p x IH ] using error_chain_ind;
    [discriminate | discriminate | exact IH].
Qed.

Lemma terminal_text_node (v : Error) :
  terminal_text (ptr_Error v) = terminal_text (Err v).
Proof. reflexivity. Qed.

Lemma Ops_node (v : Error) : Ops (ptr_Error v) = Op v :: Ops (Err v).
Proof. cbn [Ops]. destruct (Err v); reflexivity. Qed.

Lemma Ops_nodes (e : error) :
  Ops e = (map Op (nodes e) ++ terminal_text e)%list.
Proof.
  induction e as [ | text | o c p x IH ] using error_chain_ind; try reflexivity.
  rewrite Ops_node, terminal_text_node. cbn [nodes map app Err Op].
  now rewrite IH.
Qed.

(** X1.  The operation list of a chain holds the operation of every node,
    outermost first and empty labels included, followed by the text of the
    foreign error when the chain ends in one; it is empty only for nil. *)
Theorem Ops_structure (e : error) :
  Ops e = (map Op (nodes e) ++ terminal_text e)%list /\
  List.length (Ops e)
  = (List.length (nodes e) + List.length (terminal_text e))%nat /\
  (Ops e = [] <-> e = nil_error).
Proof.
  split; [apply Ops_nodes | split].
  - now rewrite Ops_nodes, length_app, length_map.
  - destruct e as [ | v | text ].
    + split; reflexivity.
    + rewrite Ops_node. split; discriminate.
    + split; discriminate.
Qed.

Lemma innermost_node (v w : Error) :
  Err v = ptr_Error w -> innermost v = innermost w.
Proof.
  unfold innermost. intros ->. cbn [nodes]. apply last_cons_default.
Qed.

(** X2.  [TopOp] of nil is the text 0; of a chain that ends in a foreign
    error it is the text of that error; of any other chain it is the
    operation of the innermost node, empty or not.  The top-level code is
    used for nil only. *)
Theorem TopOp_spec :
  TopOp nil_error = "0" /\
  (forall text, TopOp (foreign text) = text) /\
  (forall v, TopOp (ptr_Error v)
             = match terminal (Err v) with
               | foreign text => text
               | _ => Op (innermost v)
               end).
Proof.
  split; [reflexivity | split; [reflexivity | ]].
  intros v. unfold TopOp. rewrite Ops_node. cbn [List.length].
  replace (0 <? Z.of_nat (S (List.length (Ops (Err v))))) with true
    by (symmetry; apply Z.ltb_lt; lia).
  rewrite <- Ops_node, Ops_nodes. unfold terminal_text. cbn [terminal nodes].
  destruct (terminal (Err v)) as [ | w | text ] eqn:E.
  - rewrite app_nil_r. cbn [map]. rewrite last_cons_default.
    apply last_map_default.
  - now apply terminal_not_node in E.
  - apply last_last.
Qed.

Lemma append_empty_r (s : string) : s ++ "" = s.
Proof. induction s as [ | a s IH ]; cbn; [reflexivity | now rewrite IH]. Qed.

(** X3.  The trace has one entry for every node, outermost first, and none
    for a foreign error; an entry is the place of the node, then its
    operation after [; op: ] when the operation is not empty, then its own
    code after [; code: ] when the code is not zero. *)
Theorem Trace_layout (e : error) :
  Trace e = map trace_info (nodes e) /\
  List.length (Ops e)
  = (List.length (Trace e) + List.length (terminal_text e))%nat /\
  (forall v, trace_info v
             = Place v
               ++ (if nonempty (Op v) then "; op: " ++ Op v else "")
               ++ (if Code v =? 0 then "" else "; code: " ++ itoa (Code v))).
Proof.
  split; [apply Trace_nodes | split].
  - now rewrite Trace_nodes, Ops_nodes, length_app, !length_map.
  - intros v. unfold trace_info, Join.
    destruct (nonempty (Op v)), (Code v =? 0); cbn [app String.concat];
      rewrite ?append_empty_r; reflexivity.
Qed.

Lemma TopCode_zero_nodes (e : error) :
  TopCode e = 0 <-> Forall (fun v => Code v = 0) (nodes e).
Proof.
  induction e as [ | text | o c p x IH ] using error_chain_ind.
  - split; [constructor | reflexivity].
  - split; [constructor | reflexivity].
  - rewrite TopCode_node. cbn [nodes Code Err].
    destruct (Z.eqb_spec c 0) as [-> | Hc].
    + rewrite IH. split; [now constructor | now inversion 1].
    + split; [contradiction | ]. inversion 1. contradiction.
Qed.

Lemma TopCode_in_nodes (e : error) :
  TopCode e <> 0 -> exists v, In v (nodes e) /\ Code v = TopCode e.
Proof.
  induction e as [ | text | o c p x IH ] using error_chain_ind;
    try (intros H; now elim H).
  rewrite TopCode_node. cbn [nodes Code Err].
  destruct (Z.eqb_spec c 0) as [-> | Hc]; intros H.
  - destruct (IH H) as (v & Hin & Hv). exists v. split; [now right | exact Hv].
  - eexists. split; [now left | reflexivity].
Qed.

(** X4.  The top-level code is zero exactly when every node of the chain
    has the code zero; when it is not zero it is the own code of a node of
    the chain. *)
Theorem TopCode_zero_iff (e : error) :
  (TopCode e = 0 <-> Forall (fun v => Code v = 0) (nodes e)) /\
  (TopCode e <> 0 -> exists v, In v (nodes e) /\ Code v = TopCode e).
Proof.
  split; [apply TopCode_zero_nodes | apply TopCode_in_nodes].
Qed.

Lemma TopCode_zero_iff_witness :
  exists v, In v (nodes (ptr_Error (mkError "a" 0 "" (ptr_Error (mkError "b" 7 "" nil_error)))))
            /\ Code v = 7.
Proof.
  apply (proj2 (TopCode_zero_iff
                  (ptr_Error (mkError "a" 0 "" (ptr_Error (mkError "b" 7 "" nil_error)))))).
  cbn. discriminate.
Defined.

Lemma nodes_nonempty_not_nil (e : error) (v : Error) :
  In v (nodes e) -> is_nil e = false.
Proof. destruct e; [contradiction | reflexivity | contradiction]. Qed.

(** X5.  For a code that is not zero, [IsCode] is membership: it is true
    exactly when some node of the chain has that code as its own code,
    at any depth and whatever the codes of the nodes around it. *)
Theorem IsCode_nonzero_membership (e : error) (code : Z) :
  code <> 0 ->
  (IsCode e code = true <-> exists v, In v (nodes e) /\ Code v = code).
Proof.
  intros Hcode.
  induction e as [ | text | o c p x IH ] using error_chain_ind.
  - split; [discriminate | intros (v & [] & _)].
  - rewrite IsCode_foreign, Z.eqb_eq. split.
    + intros H. now elim Hcode.
    + intros (v & [] & _).
  - rewrite IsCode_node, orb_true_iff, andb_true_iff, negb_true_iff, Z.eqb_eq.
    cbn [Err nodes]. split.
    + intros [Htop | [_ Hrec]].
      * destruct (TopCode_in_nodes (ptr_Error (mkError o c p x))) as (v & Hin & Hv);
          [now rewrite Htop | ].
        exists v. split; [exact Hin | now rewrite Hv].
      * apply IH in Hrec. destruct Hrec as (v & Hin & Hv).
        exists v. split; [now right | exact Hv].
    + intros (v & [<- | Hin] & Hv).
      * left. rewrite TopCode_node. cbn [Code] in *.
        destruct (Z.eqb_spec c 0); [congruence | exact Hv].
      * right. split; [now apply (nodes_nonempty_not_nil x v) | ].
        apply IH. now exists v.
Qed.

Lemma IsCode_nonzero_membership_witness :
  IsCode (ptr_Error (mkError "a" 5 "" (ptr_Error (mkError "b" 7 "" nil_error)))) 7 = true.
Proof.
  apply (proj2 (IsCode_nonzero_membership
                  (ptr_Error (mkError "a" 5 "" (ptr_Error (mkError "b" 7 "" nil_error))))
                  7 ltac:(discriminate))).
  eexists. split; [right; left; reflexivity | reflexivity].
Defined.

Lemma innermost_in_nodes (v : Error) : In (innermost v) (nodes (ptr_Error v)).
Proof.
  unfold innermost. cbn [nodes].
  generalize (nodes (Err v)) as l. intros l. revert v.
  induction l as [ | w l IH ]; intros v; [now left | ].
  rewrite last_cons_default. right. apply IH.
Qed.

(** X6.  [IsCode] with the code zero is true exactly when the chain ends
    in a foreign error or its innermost node has the code zero; codes of
    the nodes above do not matter, and nil gives false. *)
Theorem IsCode_zero (e : error) :
  IsCode e 0 = true <->
  (exists text, terminal e = foreign text) \/
  (exists v, e = ptr_Error v /\ Code (innermost v) = 0).
Proof.
  induction e as [ | text | o c p x IH ] using error_chain_ind.
  - split; [discriminate | ].
    intros [[text H] | (v & H & _)]; discriminate.
  - split; [intros _; left; now exists text | reflexivity].
  - set (node := mkError o c p x).
    rewrite IsCode_node, orb_true_iff, andb_true_iff, negb_true_iff, Z.eqb_eq.
    change (Err node) with x. split.
    + intros [Htop | [Hx Hrec]].
      * right. exists node. split; [reflexivity | ].
        apply TopCode_zero_nodes in Htop. rewrite Forall_forall in Htop.
        apply Htop, innermost_in_nodes.
      * apply IH in Hrec. destruct Hrec as [[text Ht] | (w & -> & Hw)].
        -- left. now exists text.
        -- right. exists node. split; [reflexivity | ].
           now rewrite (innermost_node node w eq_refl).
    + intros [[text Ht] | (v & Hv & Hc)].
      * right. cbn [terminal Err] in Ht. split.
        -- apply is_nil_false. intros ->. discriminate.
        -- apply IH. left. now exists text.
      * injection Hv as <-. destruct x as [ | w | text ].
        -- left. unfold innermost in Hc. cbn in Hc. subst c. reflexivity.
        -- right. split; [reflexivity | ]. apply IH. right. exists w.
           split; [reflexivity | ].
           now rewrite <- (innermost_node (mkError o c p (ptr_Error w)) w eq_refl).
        -- left. unfold innermost in Hc. cbn in Hc. subst c. reflexivity.
Qed.

(** X7.  A node and the node it wraps show the same source: the last trace
    entry of a chain is the entry of its innermost node at every level. *)
Theorem source_of_wrapper (v w : Error) :
  Err v = ptr_Error w ->
  last (Trace (ptr_Error v)) "" = last (Trace (ptr_Error w)) "" /\
  last (Trace (ptr_Error v)) "" = trace_info (innermost w).
Proof.
  intros H. rewrite !last_Trace, (innermost_node v w H). split; reflexivity.
Qed.

Lemma source_of_wrapper_witness :
  last (Trace (ptr_Error (mkError "a" 1 "p" (ptr_Error (mkError "b" 2 "q" nil_error))))) ""
  = last (Trace (ptr_Error (mkError "b" 2 "q" nil_error))) "" /\
  last (Trace (ptr_Error (mkError "a" 1 "p" (ptr_Error (mkError "b" 2 "q" nil_error))))) ""
  = trace_info (innermost (mkError "b" 2 "q" nil_error)).
Proof.
  apply (source_of_wrapper (mkError "a" 1 "p" (ptr_Error (mkError "b" 2 "q" nil_error)))
                           (mkError "b" 2 "q" nil_error)).
  reflexivity.
Defined.

(** ** More on unwrapping and matching *)

Lemma Unwrap_node_cause (v w : Error) :
  Err v = ptr_Error w -> Unwrap (ptr_Error v) = ptr_Error w.
Proof. intros H. cbn [Unwrap]. unfold Error_Unwrap. now rewrite H. Qed.

(** X8.  On a chain that does not end in a foreign error, unwrapping never
    gives nil: after as many steps as the node has nodes below it, and
    after any larger number of steps, the result is the innermost node. *)
Theorem Unwrap_settles_on_innermost (v : Error) (k : nat) :
  terminal (ptr_Error v) = nil_error ->
  (List.length (nodes (Err v)) <= k)%nat ->
  Nat.iter k Unwrap (ptr_Error v) = ptr_Error (innermost v) /\
  Nat.iter k Unwrap (ptr_Error v) <> nil_error.
Proof.
  intros Ht Hk.
  enough (H : Nat.iter k Unwrap (ptr_Error v) = ptr_Error (innermost v))
    by (split; [exact H | rewrite H; discriminate]).
  revert v Ht Hk. induction k as [ | k IH ]; intros [o c p x] Ht Hk.
  - destruct x as [ | w | text ]; [reflexivity | | discriminate Ht].
    cbn in Hk. lia.
  - destruct x as [ | w | text ]; [ | | discriminate Ht].
    + now apply Unwrap_leaf_iter.
    + rewrite Nat.iter_succ_r.
      rewrite (Unwrap_node_cause (mkError o c p (ptr_Error w)) w eq_refl).
      rewrite (innermost_node (mkError o c p (ptr_Error w)) w eq_refl).
      apply IH; [exact Ht | ]. cbn [Err nodes List.length] in Hk. lia.
Qed.

Lemma Unwrap_settles_on_innermost_witness :
  Nat.iter 5 Unwrap (ptr_Error (mkError "a" 1 "p" (ptr_Error (mkError "b" 2 "q" nil_error))))
  = ptr_Error (innermost (mkError "a" 1 "p" (ptr_Error (mkError "b" 2 "q" nil_error)))) /\
  Nat.iter 5 Unwrap (ptr_Error (mkError "a" 1 "p" (ptr_Error (mkError "b" 2 "q" nil_error))))
  <> nil_error.
Proof.
  apply (Unwrap_settles_on_innermost
           (mkError "a" 1 "p" (ptr_Error (mkError "b" 2 "q" nil_error))) 5).
  - reflexivity.
  - simpl. lia.
Defined.

Lemma Is_with_not_nil (same : error -> error -> bool)
      (foreign_is : string -> error -> option bool)
      (fuel : nat) (err target : error) :
  err <> nil_error -> target <> nil_error ->
  Is_with same foreign_is fuel err target
  = errors_is_with same foreign_is fuel err target.
Proof.
  intros He Ht. unfold Is_with. apply is_nil_false in He, Ht.
  now rewrite He, Ht.
Qed.

Lemma errors_is_with_node (same : error -> error -> bool)
      (foreign_is : string -> error -> option bool)
      (fuel : nat) (v : Error) (target : error) :
  errors_is_with same foreign_is (S fuel) (ptr_Error v) target
  = if same (ptr_Error v) target then Some true
    else if is_nil (Error_Unwrap v) then Some false
         else errors_is_with same foreign_is fuel (Error_Unwrap v) target.
Proof. reflexivity. Qed.

(** [Is] is the general loop with equality by contents and foreign errors
    that end the loop with the answer false. *)
Lemma Is_as_Is_with (fuel : nat) (err target : error) :
  Is fuel err target
  = Is_with error_eqb (fun _ _ => Some false) fuel err target.
Proof.
  unfold Is, Is_with.
  destruct (is_nil err || is_nil target) eqn:E.
  - destruct err, target; try discriminate E; reflexivity.
  - reflexivity.
Qed.

(** X9.  [Is] finds a target that is not nil and is, for Go's equality, the
    error itself or its cause at some depth: the loop answers true after at
    most one iteration more than that depth, whatever the foreign errors
    do. *)
Theorem Is_finds_target_in_chain (same : error -> error -> bool)
        (foreign_is : string -> error -> option bool)
        (d : nat) (err target : error) :
  target <> nil_error -> cause_at d err <> nil_error ->
  same (cause_at d err) target = true ->
  Is_with same foreign_is (S d) err target = Some true.
Proof.
  intros Hnil. revert err. induction d as [ | d IH ]; intros err Hd Hs.
  - cbn [cause_at] in Hd, Hs. rewrite Is_with_not_nil by assumption.
    cbn [errors_is_with]. now rewrite Hs.
  - destruct err as [ | v | text ]; cbn [cause_at] in Hd, Hs;
      try (now elim Hd).
    assert (Hx : Err v <> nil_error)
      by (intros E; rewrite E, cause_at_nil in Hd; now elim Hd).
    specialize (IH (Err v) Hd Hs).
    rewrite Is_with_not_nil in IH by assumption.
    rewrite Is_with_not_nil by (assumption || discriminate).
    rewrite errors_is_with_node.
    destruct (same (ptr_Error v) target); [reflexivity | ].
    unfold Error_Unwrap. apply is_nil_false in Hx. now rewrite Hx, Hx.
Qed.

Lemma Is_finds_target_in_chain_witness :
  Is_with error_eqb (fun _ _ => Some false) 2
    (ptr_Error (mkError "a" 1 "p" (foreign "boom"))) (foreign "boom") = Some true.
Proof.
  apply (Is_finds_target_in_chain error_eqb (fun _ _ => Some false) 1
           (ptr_Error (mkError "a" 1 "p" (foreign "boom"))) (foreign "boom")).
  - discriminate.
  - discriminate.
  - reflexivity.
Defined.

(** X10.  [Is] does not return on a chain that ends in a node without a
    cause when the target is not nil and is none of the nodes of the chain:
    the loop runs out of any amount of fuel, however long the chain is. *)
Theorem Is_diverges_without_foreign_end (err target : error) :
  err <> nil_error -> terminal err = nil_error -> target <> nil_error ->
  (forall v, In v (nodes err) -> target <> ptr_Error v) ->
  forall fuel, Is fuel err target = None.
Proof.
  intros Herr Ht Hnil Hnodes fuel. unfold Is.
  apply is_nil_false in Herr, Hnil. rewrite Herr, Hnil. cbn [orb].
  revert err Herr Ht Hnodes.
  induction fuel as [ | fuel IH ]; intros err Herr Ht Hnodes; [reflexivity | ].
  destruct err as [ | v | text ]; try discriminate.
  cbn [errors_is].
  rewrite error_eqb_neq
    by (intros E; apply (Hnodes v); [now left | now rewrite E]).
  unfold Error_Unwrap. destruct (Err v) as [ | w | text ] eqn:Ex; cbn [is_nil].
  - apply IH; [reflexivity | exact Ht | exact Hnodes].
  - apply IH; [reflexivity | | ].
    + cbn [terminal] in Ht. now rewrite Ex in Ht.
    + intros u Hu. apply Hnodes. cbn [nodes]. rewrite Ex. now right.
  - cbn [terminal] in Ht. rewrite Ex in Ht. discriminate.
Qed.

Lemma Is_diverges_without_foreign_end_witness :
  terminal (ptr_Error (mkError "a" 1 "p" (ptr_Error (mkError "b" 2 "q" nil_error))))
  = nil_error /\
  (forall fuel,
     Is fuel (ptr_Error (mkError "a" 1 "p" (ptr_Error (mkError "b" 2 "q" nil_error))))
        (foreign "boom") = None).
Proof.
  split; [reflexivity | ].
  apply (Is_diverges_without_foreign_end
           (ptr_Error (mkError "a" 1 "p" (ptr_Error (mkError "b" 2 "q" nil_error))))
           (foreign "boom")).
  - discriminate.
  - reflexivity.
  - discriminate.
  - intros v _. discriminate.
Defined.

(** X11.  On a chain that ends in a foreign error, when the target is not
    nil and no node of the chain is the target for Go's equality, [Is]
    answers what [errors.Is] answers on that foreign error: true when it
    is the target, and otherwise what the methods of the foreign error
    lead to.  One iteration for each node and one more are enough to get
    there. *)
Theorem Is_at_foreign_end (same : error -> error -> bool)
        (foreign_is : string -> error -> option bool)
        (err target : error) (text : string) :
  terminal err = foreign text -> target <> nil_error ->
  (forall v, In v (nodes err) -> same (ptr_Error v) target = false) ->
  Is_with same foreign_is (S (List.length (nodes err))) err target
  = if same (foreign text) target then Some true else foreign_is text target.
Proof.
  intros Ht Hnil Hnodes.
  rewrite Is_with_not_nil; [ | intros ->; discriminate | exact Hnil].
  revert Ht Hnodes.
  induction err as [ | s | o c p x IH ] using error_chain_ind; intros Ht Hnodes.
  - discriminate.
  - cbn [terminal] in Ht. injection Ht as ->. reflexivity.
  - cbn [nodes List.length Err]. rewrite errors_is_with_node.
    rewrite (Hnodes (mkError o c p x)) by now left.
    assert (Hx : is_nil x = false)
      by (apply is_nil_false; intros ->; discriminate).
    unfold Error_Unwrap. cbn [Err]. rewrite Hx, Hx.
    apply IH; [exact Ht | ]. intros v Hv. apply Hnodes. now right.
Qed.

Lemma Is_at_foreign_end_witness :
  Is_with error_eqb (fun _ _ => Some false) 2
    (ptr_Error (mkError "a" 1 "p" (foreign "boom"))) (foreign "other")
  = if error_eqb (foreign "boom") (foreign "other") then Some true else Some false.
Proof.
  apply (Is_at_foreign_end error_eqb (fun _ _ => Some false)
           (ptr_Error (mkError "a" 1 "p" (foreign "boom"))) (foreign "other") "boom").
  - reflexivity.
  - discriminate.
  - intros v [<- | []]. reflexivity.
Defined.

(** ** More on the construction *)

Lemma New_several_properties_witness :
  New example_Caller example_Name example_String
    [any_ErrNo 3; any_string "load"; any_nil; any_other "float64" "1.5"]
  = Ok (ptr_Error (mkError "" 0 "main.run (main.go:42)" (foreign "3, load, 1.5"))).
Proof.
  apply (New_several_properties example_Caller example_Name example_String
           [any_ErrNo 3; any_string "load"; any_nil; any_other "float64" "1.5"]).
  simpl. lia.
Defined.

Lemma prepareProperty_frame_witness :
  (true = false ->
   mkError "op, x" 0 "p" (foreign "boom") = mkError "op" 0 "p" (foreign "boom")) /\
  (Err (mkError "op" 0 "p" (foreign "boom")) <> nil_error ->
   Err (mkError "op, x" 0 "p" (foreign "boom"))
   = Err (mkError "op" 0 "p" (foreign "boom"))).
Proof.
  apply (prepareProperty_frame example_Name example_String (any_string "x")
           (mkError "op" 0 "p" (foreign "boom"))
           (mkError "op, x" 0 "p" (foreign "boom")) true).
  reflexivity.
Defined.

Lemma NewLevel_keeps_place_witness :
  Place (mkError "A, B" 0 "main.run (main.go:47)" nil_error)
  = Place (new_Error example_Caller 7).
Proof.
  apply (proj1 (NewLevel_keeps_place example_Caller example_Name example_String 7
                  [any_string "A"; any_string "B"]
                  (mkError "A, B" 0 "main.run (main.go:47)" nil_error))).
  reflexivity.
Defined.

Lemma New_single_property_witness :
  New example_Caller example_Name example_String [any_error (foreign "boom")]
  = Ok (ptr_Error (set_Err (new_Error example_Caller 2) (foreign "boom"))) /\
  Op (set_Err (new_Error example_Caller 2) (foreign "boom")) = "" /\
  Code (set_Err (new_Error example_Caller 2) (foreign "boom")) = 0.
Proof.
  apply (New_single_property example_Caller example_Name example_String).
  discriminate.
Defined.

Lemma NewLevel_code_order_witness :
  NewLevel example_Caller example_Name example_String 2 [any_ErrNo 4; any_int 9]
  = Panic "code duplication".
Proof.
  apply (NewLevel_code_order example_Caller example_Name example_String 2 4 9).
  discriminate.
Defined.

Lemma NewLevel_label_code_cause_witness :
  let w := mkError "load" 9 (Place (new_Error example_Caller 2)) (foreign "boom") in
  NewLevel example_Caller example_Name example_String 2
    [any_string "load"; any_int 9; any_error (foreign "boom")]
  = Ok (ptr_Error w) /\
  Ops (ptr_Error w) = "load" :: Ops (foreign "boom") /\
  TopCode (ptr_Error w) = (if 9 =? 0 then TopCode (foreign "boom") else 9) /\
  Unwrap (ptr_Error w) = foreign "boom".
Proof.
  apply (NewLevel_label_code_cause example_Caller example_Name example_String
           2 "load" 9 (foreign "boom")).
  discriminate.
Defined.

Lemma IsCode_top (e : error) (code : Z) :
  e <> nil_error -> TopCode e = code -> IsCode e code = true.
Proof.
  intros Hn <-. destruct e as [ | v | text ]; [now elim Hn | | reflexivity].
  rewrite IsCode_node, Z.eqb_refl. reflexivity.
Qed.

Section Wrapping.

Variable runtime_Caller : Z -> option Frame.
Variable eno_Name : Z -> string.
Variable eno_String : Z -> string.

(** X19.  Wrapping an error that is not nil with [New] alone keeps what
    the chain functions see: unwrapping the new node gives the error back,
    the top-level code and the answers of [IsCode] are those of the error,
    and the operation list and the trace get one entry in front. *)
Theorem New_wrap_preserves (cause : error) :
  cause <> nil_error ->
  exists w,
    New runtime_Caller eno_Name eno_String [any_error cause] = Ok (ptr_Error w) /\
    Unwrap (ptr_Error w) = cause /\
    TopCode (ptr_Error w) = TopCode cause /\
    Ops (ptr_Error w) = "" :: Ops cause /\
    Trace (ptr_Error w) = trace_info w :: Trace cause /\
    (forall code, IsCode (ptr_Error w) code = IsCode cause code).
Proof.
  intros Hn. pose proof Hn as Hnil. apply is_nil_false in Hnil.
  destruct (new_Error_fresh runtime_Caller 2) as (Ho & Hc & Hx).
  exists (set_Err (new_Error runtime_Caller 2) cause).
  split; [ | destruct (new_Error runtime_Caller 2) as [o c p x];
             cbn in Ho, Hc, Hx; subst o c x; unfold set_Err; cbn [Op Code Place Err]].
  - rewrite New_unfold. cbn [prepareProperty]. unfold prepareError.
    now rewrite Hnil, Hx.
  - split; [cbn [Unwrap]; unfold Error_Unwrap; cbn [Err]; now rewrite Hnil | ].
    split; [reflexivity | ].
    split; [now rewrite Ops_node | ].
    split; [now rewrite Trace_node | ].
    intros code. rewrite IsCode_node, TopCode_node. cbn [Code Err Z.eqb].
    rewrite Hnil. cbn [negb andb].
    destruct (Z.eqb_spec (TopCode cause) code) as [E | E]; [ | reflexivity].
    now rewrite (IsCode_top cause code Hn E).
Qed.

End Wrapping.

Lemma New_wrap_preserves_witness :
  exists w,
    New example_Caller example_Name example_String
      [any_error (ptr_Error (mkError "read" 7 "q" nil_error))] = Ok (ptr_Error w) /\
    Unwrap (ptr_Error w) = ptr_Error (mkError "read" 7 "q" nil_error) /\
    TopCode (ptr_Error w) = TopCode (ptr_Error (mkError "read" 7 "q" nil_error)) /\
    Ops (ptr_Error w) = "" :: Ops (ptr_Error (mkError "read" 7 "q" nil_error)) /\
    Trace (ptr_Error w)
    = trace_info w :: Trace (ptr_Error (mkError "read" 7 "q" nil_error)) /\
    (forall code, IsCode (ptr_Error w) code
                  = IsCode (ptr_Error (mkError "read" 7 "q" nil_error)) code).
Proof.
  apply (New_wrap_preserves example_Caller example_Name example_String
           (ptr_Error (mkError "read" 7 "q" nil_error))).
  discriminate.
Defined.

(** ** The earlier version *)

Lemma append_assoc_string (a b c : string) : (a ++ b) ++ c = a ++ (b ++ c).
Proof. induction a as [ | x a IH ]; cbn; [reflexivity | now rewrite IH]. Qed.

Lemma nonempty_append (a b : string) :
  nonempty a = true -> nonempty (a ++ b) = true.
Proof. destruct a; [discriminate | reflexivity]. Qed.

Lemma Join_cons_label (first : string) (labels : list string) :
  Join (first :: labels) ", "
  = fold_left (fun acc l => acc ++ ", " ++ l) labels first.
Proof.
  unfold Join. revert first.
  induction labels as [ | l labels IH ]; intros first; [reflexivity | ].
  change (String.concat ", " (first :: l :: labels))
    with (first ++ ", " ++ String.concat ", " (l :: labels)).
  rewrite IH. cbn [fold_left].
  generalize l as seed. clear IH l.
  assert (H : forall seed pre,
             pre ++ fold_left (fun acc l => acc ++ ", " ++ l) labels seed
             = fold_left (fun acc l => acc ++ ", " ++ l) labels (pre ++ seed)).
  { induction labels as [ | l labels IH ]; intros seed pre; [reflexivity | ].
    cbn [fold_left]. rewrite IH. now rewrite append_assoc_string. }
  intros seed. rewrite <- (append_assoc_string first ", " seed).
  rewrite <- (H seed (first ++ ", ")). now rewrite append_assoc_string.
Qed.

Section EarlierConstruction.

Variable runtime_Caller : Z -> option Frame.
Variable eno_Name : Z -> string.

Lemma Earlier_new_Error_fresh :
  Op (Earlier.new_Error runtime_Caller) = "" /\
  Code (Earlier.new_Error runtime_Caller) = 0 /\
  Err (Earlier.new_Error runtime_Caller) = nil_error.
Proof.
  unfold Earlier.new_Error. destruct (runtime_Caller 1); repeat split.
Qed.

Lemma Earlier_properties_app (before after : list any) :
  forall e,
    Earlier.properties eno_Name e (before ++ after)%list
    = match Earlier.properties eno_Name e before with
      | Panic msg => Panic msg
      | Ok e1 => Earlier.properties eno_Name e1 after
      end.
Proof.
  induction before as [ | a before IH ]; intros e; [reflexivity | ].
  cbn [app Earlier.properties].
  destruct (Earlier.property eno_Name e a); [apply IH | reflexivity].
Qed.

(** With two properties or more, or with one that is not nil, [New] is the
    outcome of its loop. *)
Lemma Earlier_New_loop (args : list any) :
  (forall a, args = [a] -> any_is_nil a = false) ->
  Earlier.New runtime_Caller eno_Name args
  = match Earlier.properties eno_Name (Earlier.new_Error runtime_Caller) args with
    | Panic msg => Panic msg
    | Ok e => Ok (ptr_Error e)
    end.
Proof.
  intros H. unfold Earlier.New. destruct args as [ | a [ | b args ] ]; try reflexivity.
  now rewrite (H a eq_refl).
Qed.

Lemma app_not_single_nil (before after : list any) (arg a : any) :
  before <> [] -> (before ++ arg :: after)%list = [a] -> any_is_nil a = false.
Proof.
  intros Hb. destruct before as [ | x [ | y l ] ]; [now elim Hb | | ]; discriminate.
Qed.

(** X20.  In the earlier version [New] runs the type switch on every
    argument, so the duplication panics are reached: a plain integer that
    arrives when the node has a code panics with [code duplication], and an
    error that arrives when the node has a cause panics with
    [error duplication]. *)
Theorem Earlier_New_duplication (before after : list any) (e1 : Error) :
  Earlier.properties eno_Name (Earlier.new_Error runtime_Caller) before = Ok e1 ->
  (Code e1 <> 0 ->
   forall v, Earlier.New runtime_Caller eno_Name (before ++ any_int v :: after)%list
             = Panic "code duplication") /\
  (Err e1 <> nil_error ->
   forall v, v <> nil_error ->
             Earlier.New runtime_Caller eno_Name (before ++ any_error v :: after)%list
             = Panic "error duplication").
Proof.
  intros Hb.
  destruct Earlier_new_Error_fresh as (_ & Hc & Hx).
  assert (Hne : Code e1 <> 0 \/ Err e1 <> nil_error -> before <> []).
  { intros H ->. cbn in Hb. injection Hb as <-. destruct H; contradiction. }
  split.
  - intros Hcode v.
    rewrite Earlier_New_loop
      by (intros a; apply app_not_single_nil; apply Hne; now left).
    rewrite Earlier_properties_app, Hb. cbn [Earlier.properties Earlier.property].
    apply Z.eqb_neq in Hcode. now rewrite Hcode.
  - intros Herr v Hv.
    rewrite Earlier_New_loop
      by (intros a; apply app_not_single_nil; apply Hne; now right).
    rewrite Earlier_properties_app, Hb. cbn [Earlier.properties Earlier.property].
    apply is_nil_false in Herr, Hv. now rewrite Hv, Herr.
Qed.

(** X21.  In the earlier version a nil among two or more properties is not
    skipped and does not give the absent value: once the properties before
    it are applied, [New] panics with [invalid argument type: <nil>]. *)
Theorem Earlier_New_nil_among_others (before after : list any) (e1 : Error) :
  Earlier.properties eno_Name (Earlier.new_Error runtime_Caller) before = Ok e1 ->
  (before ++ after)%list <> [] ->
  Earlier.New runtime_Caller eno_Name (before ++ any_nil :: after)%list
  = Panic "invalid argument type: <nil>".
Proof.
  intros Hb Hne. unfold Earlier.New.
  rewrite Earlier_properties_app, Hb. cbn [Earlier.properties Earlier.property].
  destruct before as [ | x [ | y l ] ]; cbn [app]; try reflexivity.
  destruct after; [now elim Hne | reflexivity].
Qed.

Lemma Earlier_labels_loop (labels : list string) :
  forall e, nonempty (Op e) = true ->
    Forall (fun l => nonempty l = true) labels ->
    Earlier.properties eno_Name e (map any_string labels)
    = Ok (set_Op e (fold_left (fun acc l => acc ++ ", " ++ l) labels (Op e))).
Proof.
  induction labels as [ | l labels IH ]; intros e He Hl.
  - cbn. now rewrite set_Op_same.
  - inversion Hl as [ | ? ? Hl1 Hl2 ]; subst.
    cbn [map Earlier.properties Earlier.property fold_left].
    rewrite He, Hl1. rewrite IH; [ | | exact Hl2].
    + now destruct e.
    + destruct e. cbn [Op set_Op]. now apply nonempty_append.
Qed.

(** X22.  In the earlier version the labels given to [New] are all kept:
    with one or more labels, none of them empty, the operation of the node
    is the labels joined with a comma and a space, equal labels included. *)
Theorem Earlier_New_labels (first : string) (labels : list string) :
  Forall (fun l => nonempty l = true) (first :: labels) ->
  Earlier.New runtime_Caller eno_Name (map any_string (first :: labels))
  = Ok (ptr_Error (set_Op (Earlier.new_Error runtime_Caller)
                     (Join (first :: labels) ", "))).
Proof.
  intros Hl. inversion Hl as [ | ? ? H1 H2 ]; subst.
  rewrite Earlier_New_loop.
  - destruct Earlier_new_Error_fresh as (Ho & _ & _).
    cbn [map Earlier.properties Earlier.property]. rewrite Ho. cbn [nonempty].
    rewrite Earlier_labels_loop; [ | | exact H2].
    + rewrite Join_cons_label.
      now destruct (Earlier.new_Error runtime_Caller).
    + now destruct (Earlier.new_Error runtime_Caller).
  - intros a. destruct labels; cbn [map]; intros [= <-]; reflexivity.
Qed.

End EarlierConstruction.

Lemma Earlier_New_duplication_witness :
  Earlier.New example_Caller example_Name [any_int 5; any_int 7]
  = Panic "code duplication" /\
  Earlier.New example_Caller example_Name
    [any_error (foreign "first"); any_error (foreign "second")]
  = Panic "error duplication".
Proof.
  split.
  - apply (proj1 (Earlier_New_duplication example_Caller example_Name
                    [any_int 5] [] _ eq_refl)).
    discriminate.
  - apply (proj2 (Earlier_New_duplication example_Caller example_Name
                    [any_error (foreign "first")] [] _ eq_refl));
      discriminate.
Defined.

Lemma Earlier_New_nil_among_others_witness :
  Earlier.New example_Caller example_Name [any_string "load"; any_nil]
  = Panic "invalid argument type: <nil>".
Proof.
  apply (Earlier_New_nil_among_others example_Caller example_Name
           [any_string "load"] [] _ eq_refl).
  discriminate.
Defined.

Lemma Earlier_New_labels_witness :
  Earlier.New example_Caller example_Name
    (map any_string ["A"; "A"; "B"])
  = Ok (ptr_Error (set_Op (Earlier.new_Error example_Caller)
                     (Join ["A"; "A"; "B"] ", "))).
Proof.
  apply (Earlier_New_labels example_Caller example_Name "A" ["A"; "B"]).
  repeat constructor.
Defined.

(** X23.  In the earlier version the rendering of a node has no source
    part: it is the operation part and the code part, when there are any,
    joined with a comma and a space and followed by an arrow and the text
    of the cause when there is one; a node that has only a cause renders
    as the text of the cause, and a node with none of the three renders as
    the word undefined. *)
Theorem Earlier_Error_Error_format (e : Error) :
  let parts :=
    app (if nonempty (Op e) then ["op: " ++ Op e] else [])
        (if 0 <? TopCode (ptr_Error e)
         then ["code: " ++ itoa (TopCode (ptr_Error e))] else []) in
  Earlier.Error_Error e
  = match parts, Err e with
    | [], nil_error => "undefined"
    | [], cause => Earlier.error_text cause
    | _ :: _, nil_error => Join parts ", "
    | _ :: _, cause => Join parts ", " ++ " => " ++ Earlier.error_text cause
    end.
Proof.
  destruct e as [op own place cause]. cbn [Earlier.Error_Error Op Err].
  destruct (nonempty op), (0 <? TopCode (ptr_Error (mkError op own place cause))),
    cause; reflexivity.
Qed.

Section EarlierMatching.

Variable same : error -> error -> bool.
Variable foreign_is : string -> error -> option bool.

Lemma Earlier_errors_is_node (fuel : nat) (v : Error) (target : error) :
  Earlier.errors_is same foreign_is (S fuel) (ptr_Error v) target
  = if same (ptr_Error v) target then Some true
    else if is_nil (Err v) then Some false
         else Earlier.errors_is same foreign_is fuel (Err v) target.
Proof. reflexivity. Qed.

Lemma Earlier_errors_is_chain (err target : error) :
  err <> nil_error ->
  Earlier.errors_is same foreign_is (S (List.length (nodes err))) err target
  = if existsb (fun v => same (ptr_Error v) target) (nodes err) then Some true
    else match terminal err with
         | foreign text =>
             if same (foreign text) target then Some true
             else foreign_is text target
         | _ => Some false
         end.
Proof.
  induction err as [ | s | o c p x IH ] using error_chain_ind; intros Hn.
  - now elim Hn.
  - reflexivity.
  - cbn [nodes List.length existsb terminal Err].
    rewrite Earlier_errors_is_node. cbn [Err].
    destruct (same (ptr_Error (mkError o c p x)) target); [reflexivity | ].
    cbn [orb]. destruct x as [ | w | s ]; [reflexivity | | ];
      apply IH; discriminate.
Qed.

(** X24.  In the earlier version, where the [Unwrap] method returns the
    cause as it is, [Is] with an error and a target that are not nil
    answers true when a node of the chain is the target for Go's equality;
    otherwise it answers false at the end of a chain of nodes, and on a
    chain that ends in a foreign error what [errors.Is] answers on that
    error.  So it returns on every chain that has no foreign error, after
    at most one iteration for each node and one more. *)
Theorem Earlier_Is_returns (err target : error) :
  err <> nil_error -> target <> nil_error ->
  Earlier.Is same foreign_is (S (List.length (nodes err))) err target
  = (if existsb (fun v => same (ptr_Error v) target) (nodes err) then Some true
     else match terminal err with
          | foreign text =>
              if same (foreign text) target then Some true
              else foreign_is text target
          | _ => Some false
          end) /\
  (terminal err = nil_error ->
   Earlier.Is same foreign_is (S (List.length (nodes err))) err target
   = Some (existsb (fun v => same (ptr_Error v) target) (nodes err))).
Proof.
  intros He Ht.
  assert (H : Earlier.Is same foreign_is (S (List.length (nodes err))) err target
              = Earlier.errors_is same foreign_is (S (List.length (nodes err)))
                  err target).
  { unfold Earlier.Is. pose proof He as He'. pose proof Ht as Ht'.
    apply is_nil_false in He', Ht'. now rewrite He', Ht'. }
  rewrite H, (Earlier_errors_is_chain err target He).
  split; [reflexivity | ]. intros ->.
  now destruct (existsb _ _).
Qed.

End EarlierMatching.

Lemma Earlier_Is_returns_witness :
  Earlier.Is error_eqb (fun _ _ => Some false) 3
    (ptr_Error (mkError "a" 1 "p" (ptr_Error (mkError "b" 2 "q" nil_error))))
    (foreign "boom")
  = Some (existsb (fun v => error_eqb (ptr_Error v) (foreign "boom"))
            (nodes (ptr_Error (mkError "a" 1 "p"
                                 (ptr_Error (mkError "b" 2 "q" nil_error)))))).
Proof.
  apply (proj2 (Earlier_Is_returns error_eqb (fun _ _ => Some false)
                  (ptr_Error (mkError "a" 1 "p" (ptr_Error (mkError "b" 2 "q" nil_error))))
                  (foreign "boom") ltac:(discriminate) ltac:(discriminate))).
  reflexivity.
Defined.

(** X25.  In the earlier version the trace is the list of the places of the
    nodes, outermost first, with nothing for a foreign error. *)
Theorem Earlier_Trace_places (e : error) :
  Earlier.Trace e = map Place (nodes e) /\
  List.length (Earlier.Trace e) = List.length (Trace e).
Proof.
  assert (H : Earlier.Trace e = map Place (nodes e)).
  { induction e as [ | text | o c p x IH ] using error_chain_ind;
      try reflexivity.
    cbn [Earlier.Trace nodes map Place Err]. rewrite <- IH.
    destruct x; reflexivity. }
  split; [exact H | ]. now rewrite H, Trace_nodes, !length_map.
Qed.
